(** * cheribuild: the target graph and scheduler of [pycheribuild/targets.py]

    A shallow embedding of [Target], [MultiArchTargetAlias] and
    [TargetManager], and the properties of the scheduler that follow from
    the code.  The project classes ([SimpleProject] and its subclasses) are
    not part of the scheduler: what the scheduler calls on them is collected
    in the record [ProjectApi] and every definition takes it as a
    parameter. *)

From Stdlib Require Import String Ascii List Arith Bool Lia.
From stdpp Require Import base decidable countable list gmap sets sorting.
From stdpp Require strings.
From Equations Require Import Equations.
Import ListNotations.
Local Open Scope string_scope.
Local Open Scope list_scope.
Local Open Scope nat_scope.

(** ** Python values used by the scheduler *)

(** [pycheribuild/config/chericonfig.py], [class CrossCompileTarget(Enum)]. *)
Inductive CrossCompileTarget := NATIVE | MIPS | CHERI | RISCV.

(** [str(member)] of a plain [Enum] member. *)
Definition str_CrossCompileTarget (a : CrossCompileTarget) : string :=
  match a with
  | NATIVE => "CrossCompileTarget.NATIVE"
  | MIPS => "CrossCompileTarget.MIPS"
  | CHERI => "CrossCompileTarget.CHERI"
  | RISCV => "CrossCompileTarget.RISCV"
  end.

(** The attributes of [CheriConfig] that the scheduler reads. *)
Record CheriConfig := mkConfig {
  includeDependencies : bool;
  skipSdk : bool;
  verbose : bool;
  print_targets_only : bool;
  clang_colour_diags : bool;
  dollarPathWithOtherTools : string;
  targets : list string
}.

(** A project class: the class attributes read by [targets.py].  The class
    methods are in [ProjectApi] below. *)
Record ProjectClass := mkProjectClass {
  __name__ : string;
  dependenciesMustBeBuilt : bool;
  isAlias : bool;
  is_sdk_target : bool;
  default_architecture : option CrossCompileTarget;
  (* [issubclass(cls, CrossCompileMixin) or issubclass(cls, BuildFreeBSD)] *)
  is_cross_compile_class : bool
}.

(** Which of the three classes of [targets.py] an object is an instance of;
    a [MultiArchTarget] carries its [target_arch]. *)
Inductive TargetClass :=
| ClsTarget
| ClsMultiArchTarget (target_arch : option CrossCompileTarget)
| ClsMultiArchTargetAlias.

(** A [Target] object: the attributes fixed by [__init__].  Python compares
    targets by identity ([Target] defines neither [__eq__] nor [__hash__]);
    an object is identified here by these attributes.  The mutable
    attributes are in [TargetState]. *)
Record Target := mkTarget {
  name : string;
  projectClass : ProjectClass;
  cls : TargetClass
}.

(** A project instance, the result of [projectClass(config)].  [instance_id]
    is the identity of the object: the number of instances created before
    it. *)
Record Project := mkProject {
  instance_id : nat;
  instance_of : ProjectClass;
  project_config : CheriConfig
}.

Inductive exn :=
| RuntimeError (msg : string)
| AssertionError (msg : string)
| LookupError (msg : string)
| KeyError (key : string)
| AttributeError (msg : string)
| ProjectError (msg : string).

(** What the scheduler calls on a project class or a project instance.  The
    dependency lists are lists of [Target] objects, as in the code. *)
Record ProjectApi := mkApi {
  recursive_dependencies : ProjectClass -> option CheriConfig -> list Target;
  direct_dependencies : ProjectClass -> CheriConfig -> list Target;
  _cached_dependencies : ProjectClass -> list Target;
  allDependencyNames : ProjectClass -> option CheriConfig -> list string;
  get_crosscompile_target : ProjectClass -> CheriConfig -> option CrossCompileTarget;
  (* [None]: the call returns; [Some e]: it raises [e] *)
  checkSystemDependencies : Project -> option exn;
  process : Project -> option exn;
  project_run_tests : Project -> option exn
}.

Global Instance CrossCompileTarget_eq_dec : EqDecision CrossCompileTarget.
Proof. solve_decision. Defined.
Global Instance ProjectClass_eq_dec : EqDecision ProjectClass.
Proof. solve_decision. Defined.
Global Instance TargetClass_eq_dec : EqDecision TargetClass.
Proof. solve_decision. Defined.
Global Instance Target_eq_dec : EqDecision Target.
Proof. solve_decision. Defined.

Global Instance CrossCompileTarget_countable : Countable CrossCompileTarget.
Proof.
  refine (inj_countable'
    (fun a => match a with NATIVE => 0 | MIPS => 1 | CHERI => 2 | RISCV => 3 end)
    (fun n => match n with 0 => NATIVE | 1 => MIPS | 2 => CHERI | _ => RISCV end) _).
  by intros [].
Defined.
(** The keys of [gmap] and [gset] are encoded as numbers.  The strings of a
    target are kept side by side in a list, so that the number of a target
    is not much longer than its names. *)
Definition ProjectClass_flags (c : ProjectClass)
  : bool * bool * bool * option CrossCompileTarget * bool :=
  (dependenciesMustBeBuilt c, isAlias c, is_sdk_target c, default_architecture c,
   is_cross_compile_class c).

Global Instance ProjectClass_countable : Countable ProjectClass.
Proof.
  refine (inj_countable'
    (fun c => (__name__ c, encode (ProjectClass_flags c)))
    (fun '(n, f) =>
       match decode f with
       | Some (a, b, c, d, e) => mkProjectClass n a b c d e
       | None => mkProjectClass n false false false None false
       end) _).
  intros []. by rewrite decode_encode.
Defined.
Global Instance TargetClass_countable : Countable TargetClass.
Proof.
  refine (inj_countable'
    (fun c => match c with
              | ClsTarget => inl ()
              | ClsMultiArchTarget a => inr (inl a)
              | ClsMultiArchTargetAlias => inr (inr ())
              end)
    (fun s => match s with
              | inl _ => ClsTarget
              | inr (inl a) => ClsMultiArchTarget a
              | inr (inr _) => ClsMultiArchTargetAlias
              end) _).
  by intros [].
Defined.
Global Instance Target_countable : Countable Target.
Proof.
  refine (inj_countable'
    (fun t => [encode (name t); encode (__name__ (projectClass t));
               encode (ProjectClass_flags (projectClass t), cls t)])
    (fun l =>
       match l with
       | [n; pn; f] =>
           match decode n, decode pn, decode f with
           | Some n, Some pn, Some (a, b, c, d, e, k) =>
               mkTarget n (mkProjectClass pn a b c d e) k
           | _, _, _ => mkTarget "" (mkProjectClass "" false false false None false) ClsTarget
           end
       | _ => mkTarget "" (mkProjectClass "" false false false None false) ClsTarget
       end) _).
  intros [n [] k]. cbn [name projectClass cls __name__ ProjectClass_flags
                        dependenciesMustBeBuilt isAlias is_sdk_target
                        default_architecture is_cross_compile_class].
  by rewrite !decode_encode.
Defined.

(** An element of a Python set or a key of a dictionary: the scheduler puts
    strings and [Target] objects into sets.  A string never equals a
    target. *)
Inductive PyObj := PyStr (s : string) | PyTarget (t : Target).

Global Instance PyObj_eq_dec : EqDecision PyObj.
Proof. solve_decision. Defined.
Global Instance PyObj_countable : Countable PyObj.
Proof.
  refine (inj_countable'
    (fun o => match o with PyStr s => inl s | PyTarget t => inr t end)
    (fun s => match s with inl s => PyStr s | inr t => PyTarget t end) _).
  by intros [].
Defined.

(** ** [list.sort]

    [sorted(l)] copies [l] and sorts the copy with CPython's [list.sort]
    ([Objects/listobject.c], as in the releases 3.5 to 3.12), which calls
    only [<].  For a list of fewer than 64 elements [minrun] is the length of
    the list, so the sort is: [count_run] finds the run the list starts
    with, a strictly descending run is reversed, and [binarysort] inserts
    the remaining elements one by one at the place found by bisection.
    (Only on longer lists are several runs merged.) *)
Section ListSort.
Context {A : Type} (lt : A -> A -> bool).

(** The loops of [count_run]: [prev] is [*(lo-1)], [l] is the slice from
    [lo] on; the result is the number of further elements of the run. *)
Fixpoint run_descending (prev : A) (l : list A) : nat :=
  match l with
  | [] => 0
  | x :: l' => if lt x prev then S (run_descending x l') else 0
  end.

Fixpoint run_ascending (prev : A) (l : list A) : nat :=
  match l with
  | [] => 0
  | x :: l' => if lt x prev then 0 else S (run_ascending x l')
  end.

(** [count_run]: the length of the run and the [descending] flag. *)
Definition count_run (l : list A) : nat * bool :=
  match l with
  | [] => (0, false)
  | [_] => (1, false)
  | x :: y :: l' =>
      if lt y x then (2 + run_descending y l', true)
      else (2 + run_ascending y l', false)
  end.

(** The bisection loop of [binarysort]:
    [do { p = l + ((r - l) >> 1); IFLT(pivot, *p) r = p; else l = p+1; }
     while (l < r)].  [n] bounds the number of iterations, [r - l] is
    enough. *)
Fixpoint bisect (n : nat) (pivot : A) (a : list A) (l r : nat) : nat :=
  match n with
  | 0 => l
  | S n' =>
      if l <? r then
        let p := l + (r - l) / 2 in
        if lt pivot (nth p a pivot) then bisect n' pivot a l p
        else bisect n' pivot a (p + 1) r
      else l
  end.

(** One iteration of the outer loop of [binarysort]: [a] is the sorted
    slice [lo, start), [pivot] is [*start]. *)
Definition binary_insert (a : list A) (pivot : A) : list A :=
  let l := bisect (length a) pivot a 0 (length a) in
  take l a ++ pivot :: drop l a.

Definition binarysort (run rest : list A) : list A :=
  fold_left binary_insert rest run.

Definition sorted (l : list A) : list A :=
  let '(n, descending) := count_run l in
  let run := if descending then reverse (take n l) else take n l in
  binarysort run (drop n l).
End ListSort.

(** [list(OrderedDict((x, True) for x in l).keys())]: a key that is already
    in the dictionary keeps its place. *)
Definition OrderedDict_keys {A} `{EqDecision A} (l : list A) : list A :=
  fold_left (fun d x => if decide (x ∈ d) then d else d ++ [x]) l [].

(** ** [class Target]: the ordering *)

Definition startswith (s p : string) : bool := String.prefix p s.

(** [x in l] on a list of targets. *)
Definition target_in (t : Target) (l : list Target) : bool :=
  bool_decide (t ∈ l).

(** [Target.__lt__]. *)
Definition __lt__ (P : ProjectApi) (self other : Target) : bool :=
  let otherDeps := _cached_dependencies P (projectClass other) in
  if target_in self otherDeps then true
  else if target_in other (_cached_dependencies P (projectClass self)) then false
  else if startswith (name other) "run" && negb (startswith (name self) "run") then true
  else if startswith (name self) "run" then false
  else if startswith (name other) "disk-image"
          && negb (startswith (name self) "disk-image") then true
  else if startswith (name self) "disk-image" then false
  else false.

(** ** [class TargetManager]: expansion and ordering *)

(** [TargetManager.sort_in_dependency_order]. *)
Definition sort_in_dependency_order (P : ProjectApi) (targets : list Target)
  : list Target :=
  let sorted_targets := sorted (__lt__ P) targets in
  OrderedDict_keys sorted_targets.

(** The [if]/[elif] chain of [get_all_targets] that chooses [deps_to_add]. *)
Definition deps_to_add (P : ProjectApi) (config : CheriConfig) (t : Target)
  : list Target :=
  if includeDependencies config then
    recursive_dependencies P (projectClass t) (Some config)
  else if dependenciesMustBeBuilt (projectClass t) then
    recursive_dependencies P (projectClass t) (Some config)
  else if isAlias (projectClass t) then
    direct_dependencies P (projectClass t) config
  else [].

(** The inner loop of [get_all_targets]: the dependencies that are appended
    to [chosen_targets]. *)
Definition added_dependencies (config : CheriConfig) (deps : list Target)
  : list Target :=
  filter (fun dep_target =>
            negb (skipSdk config && is_sdk_target (projectClass dep_target)) = true)
         deps.

(** The outer loop of [get_all_targets]: [chosen_targets] when it ends. *)
Fixpoint chosen_targets (P : ProjectApi) (config : CheriConfig)
    (explicit_targets : list Target) : list Target :=
  match explicit_targets with
  | [] => []
  | t :: rest =>
      t :: added_dependencies config (deps_to_add P config t)
        ++ chosen_targets P config rest
  end.

(** [TargetManager.get_all_targets]. *)
Definition get_all_targets (P : ProjectApi) (explicit_targets : list Target)
    (config : CheriConfig) : list Target :=
  sort_in_dependency_order P (chosen_targets P config explicit_targets).

(** ** [class Target]: the life cycle

    The methods of one [Target] object run on the mutable attributes of the
    object and on what they share with the rest of the process: the class
    attribute [Target.instantiating_targets_should_warn], the project
    instances created so far, and what has been done or printed.  The
    methods are those of [Target], which [MultiArchTarget] inherits; a
    [MultiArchTargetAlias] calls the method of the same name on the target
    that [get_real_target] returns, so that the attributes of that target
    are the ones that change. *)

Record TargetState := mkState {
  __project : option Project;
  _completed : bool;
  _tests_have_run : bool;
  _creating_project : bool
}.

(** The attributes as [Target.__init__] sets them. *)
Definition init_state : TargetState := mkState None false false false.

Inductive event :=
| Instantiated (p : Project)                            (* [projectClass(config)] *)
| SystemDependenciesChecked (p : Project) (PATH : string)
| Processed (p : Project) (env : list (string * string))  (* [project.process()] *)
| TestsRun (p : Project) (env : list (string * string))   (* [project.run_tests()] *)
| Warning (args : list string)                          (* [warningMessage] *)
| StatusUpdate (args : list string).                    (* [statusUpdate] *)

Record World := mkWorld {
  instantiating_targets_should_warn : bool;
  instances_created : nat;
  log : list event
}.

Inductive result (A : Type) :=
| Returned (a : A)
| Raised (e : exn).
Arguments Returned {A} a.
Arguments Raised {A} e.

(** A method call: it returns or raises, and leaves a state in both cases. *)
Definition M (A : Type) : Type :=
  TargetState * World -> result A * (TargetState * World).

Global Instance M_ret : MRet M := fun A a σ => (Returned a, σ).
Global Instance M_bind : MBind M := fun A B f m σ =>
  match m σ with
  | (Returned a, σ') => f a σ'
  | (Raised e, σ') => (Raised e, σ')
  end.

Definition raise {A} (e : exn) : M A := fun σ => (Raised e, σ).
Definition get_state : M TargetState := fun σ => (Returned (fst σ), σ).
Definition get_world : M World := fun σ => (Returned (snd σ), σ).
Definition put_state (s : TargetState) : M unit := fun σ => (Returned (), (s, snd σ)).
Definition emit (ev : event) : M unit := fun σ =>
  let w := snd σ in
  (Returned (),
   (fst σ, mkWorld (instantiating_targets_should_warn w) (instances_created w)
                   (log w ++ [ev]))).
Definition assert_ (b : bool) (msg : string) : M unit :=
  if b then mret () else raise (AssertionError msg).

(** A call into the project: it is recorded, then it returns or raises. *)
Definition call (ev : event) (outcome : option exn) : M unit :=
  emit ev ;;
  match outcome with
  | None => mret ()
  | Some e => raise e
  end.

(** [self.projectClass(config)]: a new object. *)
Definition instantiate (c : ProjectClass) (config : CheriConfig) : M Project :=
  fun σ =>
    let w := snd σ in
    let p := mkProject (instances_created w) c config in
    (Returned p,
     (fst σ, mkWorld (instantiating_targets_should_warn w) (S (instances_created w))
                     (log w ++ [Instantiated p]))).

(** [Target._create_project] and its override in [MultiArchTarget] and
    [MultiArchTargetAlias]. *)
Definition _create_project (self : Target) (config : CheriConfig) : M Project :=
  match cls self with
  | ClsTarget => instantiate (projectClass self) config
  | _ =>
      assert_ (is_cross_compile_class (projectClass self)) "" ;;
      instantiate (projectClass self) config
  end.

(** [Target.create_project].  The message is the one passed to [coloured],
    without the colour codes. *)
Definition create_project (self : Target) (config : CheriConfig) : M Project :=
  s ← get_state ;
  assert_ (negb (_creating_project s)) "" ;;
  w ← get_world ;
  if instantiating_targets_should_warn w then
    raise (RuntimeError ("Instantiating target " ++ name self ++ " before run()!")%string)
  else
    put_state (mkState (__project s) (_completed s) (_tests_have_run s) true) ;;
    _create_project self config.

(** [Target.get_or_create_project]. *)
Definition get_or_create_project (self : Target)
    (target_arch : option CrossCompileTarget) (config : CheriConfig) : M Project :=
  s ← get_state ;
  match __project s with
  | None =>
      p ← create_project self config ;
      s' ← get_state ;
      put_state (mkState (Some p) (_completed s') (_tests_have_run s')
                         (_creating_project s'))
  | Some _ => mret ()
  end ;;
  s ← get_state ;
  match __project s with
  | Some p => mret p
  | None => raise (AssertionError "")
  end.

(** [Target.checkSystemDeps]. *)
Definition checkSystemDeps (P : ProjectApi) (self : Target) (config : CheriConfig)
  : M unit :=
  s ← get_state ;
  if _completed s then mret ()
  else
    project ← get_or_create_project self None config ;
    call (SystemDependenciesChecked project (dollarPathWithOtherTools config))
         (checkSystemDependencies P project).

(** The dictionary [new_env] of [execute] and [run_tests]. *)
Definition new_env (project : Project) : list (string * string) :=
  ("PATH", dollarPathWithOtherTools (project_config project))
    :: (if clang_colour_diags (project_config project)
        then [("CLANG_FORCE_COLOR_DIAGNOSTICS", "always")] else []).

(** [Target.execute].  The elapsed time is left out of the status line. *)
Definition execute (P : ProjectApi) (self : Target) (config : CheriConfig) : M unit :=
  s ← get_state ;
  if _completed s then
    emit (Warning [name self; "has already been executed!"])
  else
    match __project s with
    | None => raise (AssertionError "Should have been initialized in checkSystemDeps()")
    | Some project =>
        call (Processed project (new_env project)) (process P project) ;;
        emit (StatusUpdate [("Built target '" ++ name self ++ "' in")%string; "seconds"]) ;;
        s' ← get_state ;
        put_state (mkState (__project s') true (_tests_have_run s')
                           (_creating_project s'))
    end.

(** [Target.run_tests]. *)
Definition run_tests (P : ProjectApi) (self : Target) (config : CheriConfig) : M unit :=
  s ← get_state ;
  if _tests_have_run s then
    emit (Warning [name self; "has already been executed!"])
  else
    project ← get_or_create_project self None config ;
    call (TestsRun project (new_env project)) (project_run_tests P project) ;;
    emit (StatusUpdate [("Ran tests for target '" ++ name self ++ "' in")%string; "seconds"]) ;;
    s' ← get_state ;
    put_state (mkState (__project s') (_completed s') true (_creating_project s')).

(** [Target.reset]. *)
Definition reset : M unit := put_state (mkState None false false false).

(** The calls of a life cycle without [reset]. *)
Inductive method :=
| GetOrCreateProject (target_arch : option CrossCompileTarget)
| CheckSystemDeps
| Execute
| RunTests.

Definition invoke (P : ProjectApi) (self : Target) (config : CheriConfig)
    (m : method) : M unit :=
  match m with
  | GetOrCreateProject a => get_or_create_project self a config ;; mret ()
  | CheckSystemDeps => checkSystemDeps P self config
  | Execute => execute P self config
  | RunTests => run_tests P self config
  end.

(** A sequence of calls on one target, each call made whether or not an
    earlier one raised (as a caller that catches the exception would). *)
Definition invoke_all (P : ProjectApi) (self : Target) (config : CheriConfig)
    (ms : list method) (σ : TargetState * World) : TargetState * World :=
  fold_left (fun σ m => snd (invoke P self config m σ)) ms σ.

(** ** [class MultiArchTargetAlias] *)

(** The attribute [target_arch] of an element of [derived_targets]. *)
Definition target_arch (t : Target) : option CrossCompileTarget :=
  match cls t with
  | ClsMultiArchTarget a => a
  | _ => None
  end.

(** [MultiArchTargetAlias.get_real_target]; [derived] is
    [self.derived_targets], in the order in which [MultiArchTarget.__init__]
    appended the variants. *)
Definition get_real_target (P : ProjectApi) (self : Target) (derived : list Target)
    (cross_target : option CrossCompileTarget) (config : CheriConfig)
  : result Target :=
  let cross_target :=
    match cross_target with
    | None => get_crosscompile_target P (projectClass self) config
    | Some _ => cross_target
    end in
  match cross_target with
  | None => Raised (AssertionError "")
  | Some a =>
      match find (fun tgt => bool_decide (target_arch tgt = Some a)) derived with
      | Some tgt => Returned tgt
      | None =>
          Raised (LookupError
                    ("Could not find target for " ++ str_CrossCompileTarget a)%string)
      end
  end.

(** ** [class TargetManager]: the registry *)

Record TargetManager := mkTargetManager {
  _allTargets : gmap string Target
}.

(** [TargetManager.__init__]. *)
Definition new_TargetManager : TargetManager := mkTargetManager ∅.

(** [TargetManager.addTarget]: the assignment to [self._allTargets[target.name]]
    is all it does. *)
Definition addTarget (self : TargetManager) (target : Target) : result TargetManager :=
  Returned (mkTargetManager (<[name target := target]> (_allTargets self))).

(** [TargetManager.get_target_raw]: a missing key raises [KeyError]. *)
Definition get_target_raw (self : TargetManager) (name : string) : result Target :=
  match _allTargets self !! name with
  | Some target => Returned target
  | None => Raised (KeyError name)
  end.

(** [TargetManager.get_target]; [derived_targets] gives the attribute of
    that name of every alias object. *)
Definition get_target (P : ProjectApi) (self : TargetManager)
    (derived_targets : Target -> list Target) (name : string)
    (arch : option CrossCompileTarget) (config : CheriConfig) : result Target :=
  match get_target_raw self name with
  | Raised e => Raised e
  | Returned target =>
      match cls target with
      | ClsMultiArchTargetAlias =>
          let arch :=
            match arch, default_architecture (projectClass target) with
            | None, Some d => Some d
            | _, _ => arch
            end in
          get_real_target P target (derived_targets target) arch config
      | _ => Returned target
      end
  end.

(** ** [TargetManager.topologicalSort] *)

(** The dictionary [data]: from a name to a set. *)
Abbreviation Data := (gmap string (gset PyObj)).

(** [Target.get_dependencies]. *)
Definition get_dependencies (P : ProjectApi) (self : Target)
    (config : option CheriConfig) : list Target :=
  recursive_dependencies P (projectClass self) config.

(** [set(t.get_dependencies(None))]: a set of [Target] objects. *)
Definition dependency_set (P : ProjectApi) (t : Target) : gset PyObj :=
  list_to_set (PyTarget <$> get_dependencies P t None).

(** [dict((t.name, set(t.get_dependencies(None))) for t in targets)]: a
    later pair with the same name replaces the earlier one. *)
Definition initial_data (P : ProjectApi) (targets : list Target) : Data :=
  fold_left (fun data t => <[name t := dependency_set P t]> data) targets ∅.

(** [functools.reduce(set.union, allDependencyNames, set())]. *)
Definition possiblyMissingDependencies (P : ProjectApi) (targets : list Target)
  : gset string :=
  fold_left (fun acc t => acc ∪ list_to_set (allDependencyNames P (projectClass t) None))
            targets ∅.

(** The loop over [possiblyMissingDependencies].  For the first name that is
    not a key of [data] the right-hand side [self._allTargets[dep].dependencies]
    is evaluated: a [KeyError] when the name is not registered, and otherwise
    an [AttributeError], since no class of [targets.py] sets an attribute
    [dependencies] on a target.  (Python does not fix the order in which a set
    is iterated; here it is the order of [elements].) *)
Definition add_missing (self : TargetManager) (missing : gset string) (data : Data)
  : result Data :=
  match filter (fun dep => data !! dep = None) (elements missing) with
  | [] => Returned data
  | dep :: _ =>
      match _allTargets self !! dep with
      | None => Raised (KeyError dep)
      | Some _ => Raised (AttributeError "dependencies")
      end
  end.

(** How the generator ends. *)
Inductive sort_end :=
| StopIteration                      (* [assert not data] holds *)
| CyclicDependency (data : Data)     (* the [AssertionError], with its [data] *)
| SortRaised (e : exn).              (* raised before the loop *)

(** [set(item for item, dep in data.items() if not dep)]: the names, ... *)
Definition ordered_names (data : Data) : gset string :=
  dom (filter (fun kv => snd kv = ∅) data).

(** ... and the set [ordered] that holds them. *)
Definition ordered_set (data : Data) : gset PyObj :=
  set_map PyStr (ordered_names data).

(** [{item: (dep - ordered) for item, dep in data.items() if item not in ordered}]. *)
Definition peel (data : Data) : Data :=
  let ordered := ordered_set data in
  (fun dep => dep ∖ ordered) <$> filter (fun kv => PyStr (fst kv) ∉ ordered) data.

Lemma peel_size (data : Data) :
  ordered_names data ≠ ∅ -> size (peel data) < size data.
Proof.
  intros Hne. unfold peel. rewrite map_size_fmap.
  apply set_choose_L in Hne as [k Hk].
  pose proof Hk as Hk'.
  unfold ordered_names in Hk. apply elem_of_dom in Hk as [v Hv].
  apply map_lookup_filter_Some in Hv as [Hv _].
  assert (Hsub : filter (fun kv : string * gset PyObj => PyStr kv.1 ∉ ordered_set data) data
                   ⊆ delete k data).
  { apply map_subseteq_spec. intros i x Hi.
    apply map_lookup_filter_Some in Hi as [Hi Hn]. simpl in Hn.
    destruct (decide (i = k)) as [->|Hik]; [|by rewrite lookup_delete_ne].
    exfalso. apply Hn. unfold ordered_set. by apply elem_of_map_2. }
  apply map_subseteq_size in Hsub.
  assert (size data = S (size (delete k data))); [|lia].
  rewrite <- (insert_delete_id data k v) at 1 by done.
  rewrite map_size_insert_None; [done|]. apply lookup_delete_eq.
Qed.

(** The [while True] loop: the waves that are yielded and how the generator
    ends.  Every turn that does not leave the loop takes a key out of
    [data]. *)
Equations? sort_loop (data : Data) : list (list string) * sort_end
  by wf (size data) lt :=
  sort_loop data with decide (ordered_names data = ∅) := {
    | left _ =>
        ([], if decide (data = ∅) then StopIteration else CyclicDependency data)
    | right _ =>
        let '(waves, e) := sort_loop (peel data) in
        (sorted String.ltb (elements (ordered_names data)) :: waves, e)
  }.
Proof. by apply peel_size. Qed.

(** [TargetManager.topologicalSort], run until the generator ends. *)
Definition topologicalSort (P : ProjectApi) (self : TargetManager)
    (targets : list Target) : list (list string) * sort_end :=
  let data := initial_data P targets in
  match add_missing self (possiblyMissingDependencies P targets) data with
  | Raised e => ([], SortRaised e)
  | Returned data => sort_loop data
  end.

(** ** What a log records *)

Definition is_processed (ev : event) : bool :=
  match ev with Processed _ _ => true | _ => false end.
Definition is_checked (ev : event) : bool :=
  match ev with SystemDependenciesChecked _ _ => true | _ => false end.

Definition count_events (f : event -> bool) (l : list event) : nat :=
  length (List.filter f l).

(** [_create_project] passes its assertion on the class of the project. *)
Definition class_accepted (self : Target) : bool :=
  match cls self with
  | ClsTarget => true
  | _ => is_cross_compile_class (projectClass self)
  end.

(** The target has a project instance, or [get_or_create_project] is able to
    create one. *)
Definition can_have_project (self : Target) (σ : TargetState * World) : Prop :=
  is_Some (__project σ.1)
  \/ (_creating_project σ.1 = false
      /\ instantiating_targets_should_warn σ.2 = false
      /\ class_accepted self = true).

(** The claim that the system dependencies of a target are checked once,
    however often [checkSystemDeps] is called. *)
Definition checked_once (P : ProjectApi) (self : Target) (config : CheriConfig)
    (σ : TargetState * World) : Prop :=
  forall n, 1 <= n ->
    count_events is_checked
      (log (invoke_all P self config (replicate n CheckSystemDeps) σ).2)
    = S (count_events is_checked (log σ.2)).

(** The line that [execute] prints for a target that has been executed. *)
Definition already_executed (self : Target) : event :=
  Warning [name self; "has already been executed!"].

(** ** The claims about a plan, as predicates *)

(** [y] is not less than [x]: the order [list.sort] leaves two elements in. *)
Definition not_after {A} (lt : A -> A -> bool) (x y : A) : Prop := lt y x = false.


(** [lt] is a strict weak order on the elements of [l]: it is asymmetric
    there, and two elements that are both unordered with a third one are
    unordered with each other. *)
Definition strict_weak_on {A} (lt : A -> A -> bool) (l : list A) : bool :=
  forallb (fun x =>
    forallb (fun y =>
      implb (lt x y) (negb (lt y x))
      && forallb (fun z => implb (negb (lt x y) && negb (lt y z)) (negb (lt x z))) l)
    l) l.

(** Every target of the plan comes after the targets of the plan that are in
    its cached (transitive) dependencies. *)
Definition in_dependency_order (P : ProjectApi) (plan : list Target) : Prop :=
  forall a b i j,
    plan !! i = Some a -> plan !! j = Some b ->
    a ∈ _cached_dependencies P (projectClass b) ->
    i < j.

(** The rank that the third rule of the ordering gives to a name: "run"
    last, "disk-image" just before it. *)
Definition name_class (t : Target) : nat :=
  if startswith (name t) "run" then 2
  else if startswith (name t) "disk-image" then 1
  else 0.

(** The names put [x] before [y]: [y] is a "run" target and [x] is none, or
    [y] is a "disk-image" target and [x] is neither, or [x] is a
    "disk-image" target and [y] a "run" target. *)
Definition name_before (x y : Target) : bool :=
  let run t := startswith (name t) "run" in
  let disk_image t := startswith (name t) "disk-image" in
  negb (run x) && run y
  || negb (run x) && negb (disk_image x) && disk_image y
  || disk_image x && run y.



(** The claim on the pruning of SDK targets: with [--skip-sdk], of a chain
    [t -> d1 -> d2] with [d1] an SDK target and [d2] none, neither [d1] nor
    [d2] is in the plan for [t]. *)
Definition sdk_chain_excluded (P : ProjectApi) (config : CheriConfig)
    (t d1 d2 : Target) : Prop :=
  skipSdk config = true ->
  d1 ∈ direct_dependencies P (projectClass t) config ->
  is_sdk_target (projectClass d1) = true ->
  d2 ∈ direct_dependencies P (projectClass d1) config ->
  is_sdk_target (projectClass d2) = false ->
  (d1 ∉ get_all_targets P [t] config) /\ (d2 ∉ get_all_targets P [t] config).


(** ** The claims about the registry and the aliases, as predicates *)

(** [sub in s]. *)
Definition contains (s sub : string) : bool :=
  match String.index 0 sub s with
  | Some _ => true
  | None => false
  end.

(** Registering under a name that is taken fails. *)
Definition rejects_duplicate (self : TargetManager) (target : Target) : Prop :=
  is_Some (_allTargets self !! name target) ->
  exists e, addTarget self target = Raised e.

(** The architecture that [get_real_target] looks for. *)
Definition requested_architecture (P : ProjectApi) (self : Target)
    (cross_target : option CrossCompileTarget) (config : CheriConfig)
  : option CrossCompileTarget :=
  match cross_target with
  | None => get_crosscompile_target P (projectClass self) config
  | Some _ => cross_target
  end.

(** When no variant has the requested architecture, the error names the
    architecture and the alias. *)
Definition lookup_error_names_both (P : ProjectApi) (self : Target)
    (derived : list Target) (cross_target : option CrossCompileTarget)
    (config : CheriConfig) : Prop :=
  forall a,
    requested_architecture P self cross_target config = Some a ->
    (forall tgt, tgt ∈ derived -> target_arch tgt ≠ Some a) ->
    exists msg,
      get_real_target P self derived cross_target config = Raised (LookupError msg)
      /\ contains msg (str_CrossCompileTarget a) = true
      /\ contains msg (name self) = true.

(** ** The batches of [topologicalSort] *)

(** The names that the waves hold. *)
Definition emitted (waves : list (list string)) : gset string :=
  list_to_set (concat waves).

(** The entries of [data] whose set is not empty. *)
Definition unresolved (data : Data) : Data :=
  filter (fun kv => snd kv ≠ ∅) data.

Definition is_cyclic (e : sort_end) : bool :=
  match e with CyclicDependency _ => true | _ => false end.

(** The dictionary that the assertion error of [topologicalSort] shows, as
    a list; the names that it shows, in order. *)
Definition reported (e : sort_end) : list (string * list PyObj) :=
  match e with
  | CyclicDependency rest => map_to_list (elements <$> rest)
  | _ => []
  end.
Definition reported_names (e : sort_end) : list string :=
  sorted String.ltb (fst <$> reported e).

(** ** Small catalogs *)

(** A project class without flags, and the target of a project of this
    name. *)
Definition simple_class (n : string) : ProjectClass :=
  mkProjectClass n false false false None false.
Definition simple_target (n : string) : Target :=
  mkTarget n (simple_class n) ClsTarget.

(** An SDK project. *)
Definition sdk_target (n : string) : Target :=
  mkTarget n (mkProjectClass n false false true None false) ClsTarget.

(** The project classes of a catalog, given by the direct and the recursive
    dependencies of every class; every call on a project returns. *)
Definition catalog (direct recursive : string -> list Target) : ProjectApi :=
  mkApi (fun c _ => recursive (__name__ c))
        (fun c _ => direct (__name__ c))
        (fun c => recursive (__name__ c))
        (fun c _ => name <$> recursive (__name__ c))
        (fun c _ => default_architecture c)
        (fun _ => None) (fun _ => None) (fun _ => None).

Definition no_flags : CheriConfig := mkConfig false false false false false "" [].
Definition with_dependencies_skip_sdk : CheriConfig :=
  mkConfig true true false false false "" [].

(** [b] depends on [a]; [x] is on its own. *)
Definition one_edge : ProjectApi :=
  let deps n := if String.eqb n "b" then [simple_target "a"] else [] in
  catalog deps deps.


(** The chain [t -> d1 -> d2] with the SDK target [d1]. *)
Definition sdk_chain : ProjectApi :=
  catalog
    (fun n => if String.eqb n "t" then [sdk_target "d1"]
              else if String.eqb n "d1" then [simple_target "d2"] else [])
    (fun n => if String.eqb n "t" then [sdk_target "d1"; simple_target "d2"]
              else if String.eqb n "d1" then [simple_target "d2"] else []).

(** The cycle [A -> B -> C -> A]. *)
Definition cycle : ProjectApi :=
  catalog
    (fun n => if String.eqb n "A" then [simple_target "B"]
              else if String.eqb n "B" then [simple_target "C"]
              else if String.eqb n "C" then [simple_target "A"] else [])
    (fun n => if String.eqb n "A" then [simple_target "B"; simple_target "C"; simple_target "A"]
              else if String.eqb n "B" then [simple_target "C"; simple_target "A"; simple_target "B"]
              else if String.eqb n "C" then [simple_target "A"; simple_target "B"; simple_target "C"]
              else []).

(** The alias [libcxx] with its variants for [native] and [cheri]; the
    project class has the default architecture [native]. *)
Definition libcxx_class : ProjectClass :=
  mkProjectClass "BuildLibCXX" false false false (Some NATIVE) true.
Definition libcxx : Target := mkTarget "libcxx" libcxx_class ClsMultiArchTargetAlias.
Definition libcxx_native : Target :=
  mkTarget "libcxx-native" libcxx_class (ClsMultiArchTarget (Some NATIVE)).
Definition libcxx_cheri : Target :=
  mkTarget "libcxx-cheri" libcxx_class (ClsMultiArchTarget (Some CHERI)).
Definition libcxx_variants (t : Target) : list Target :=
  if decide (t = libcxx) then [libcxx_native; libcxx_cheri] else [].
Definition libcxx_registry : TargetManager :=
  mkTargetManager (<["libcxx" := libcxx]>
                     (<["libcxx-native" := libcxx_native]>
                        (<["libcxx-cheri" := libcxx_cheri]> ∅))).
Definition no_dependencies : ProjectApi := catalog (fun _ => []) (fun _ => []).

(** A target before anything is called on it, once [run] allows project
    instances to be created. *)
Definition fresh : TargetState * World := (init_state, mkWorld false 0 []).

(** A registry without targets. *)
Definition empty_registry : TargetManager := new_TargetManager.

(** A target that has a project instance and has been executed. *)
Definition executed : TargetState * World :=
  (mkState (Some (mkProject 0 (simple_class "llvm") no_flags)) true false true,
   mkWorld false 1 []).

(** The target [llvm] after [get_or_create_project]; after
    [checkSystemDeps]; and after [execute] then. *)
Definition created_llvm : TargetState * World :=
  (get_or_create_project (simple_target "llvm") None no_flags fresh).2.
Definition checked_llvm : TargetState * World :=
  (checkSystemDeps no_dependencies (simple_target "llvm") no_flags fresh).2.
Definition built_llvm : TargetState * World :=
  (execute no_dependencies (simple_target "llvm") no_flags checked_llvm).2.

(** ** More on the life cycle: [reset] and what the log counts *)

Definition is_instantiated (ev : event) : bool :=
  match ev with Instantiated _ => true | _ => false end.
Definition is_tested (ev : event) : bool :=
  match ev with TestsRun _ _ => true | _ => false end.

(** A call of a method of a target, [reset] among them. *)
Inductive op :=
| Method (m : method)
| Reset.

Definition apply_op (P : ProjectApi) (self : Target) (config : CheriConfig)
    (o : op) (σ : TargetState * World) : TargetState * World :=
  match o with
  | Method m => (invoke P self config m σ).2
  | Reset => (reset σ).2
  end.

Definition apply_ops (P : ProjectApi) (self : Target) (config : CheriConfig)
    (os : list op) (σ : TargetState * World) : TargetState * World :=
  fold_left (fun σ o => apply_op P self config o σ) os σ.

(** What the attributes of a target never contradict: an executed target
    has its project instance, and a project instance is only there once
    [create_project] has set [_creating_project]. *)
Definition state_ok (s : TargetState) : Prop :=
  (_completed s = true -> is_Some (__project s))
  /\ (is_Some (__project s) -> _creating_project s = true).

(** The line that [run_tests] prints for a target whose tests have run. *)
Definition tests_already_run (self : Target) : event :=
  Warning [name self; "has already been executed!"].

(** The message of [create_project] while targets must not be instantiated. *)
Definition premature (self : Target) : exn :=
  RuntimeError ("Instantiating target " ++ name self ++ " before run()!")%string.


(** A target before [run] has allowed project instances to be created. *)
Definition before_run : TargetState * World := (init_state, mkWorld true 0 []).

(** Whether a call can still create the project instance of the target:
    not once there is one, and not once [_creating_project] is set. *)
Definition may_instantiate (σ : TargetState * World) : nat :=
  match __project σ.1 with
  | Some _ => 0
  | None => if _creating_project σ.1 then 0 else 1
  end.

(** ** More on the ordering and the expansion *)

(** No element of [l] is less than the element before it: [list.sort] takes
    such a list for sorted. *)
Fixpoint no_descent {A} (lt : A -> A -> bool) (l : list A) : bool :=
  match l with
  | x :: (y :: _) as l' => negb (lt y x) && no_descent lt l'
  | _ => true
  end.

(** A dependency that [get_all_targets] does not add. *)
Definition skipped (config : CheriConfig) (dep_target : Target) : bool :=
  skipSdk config && is_sdk_target (projectClass dep_target).

(** An umbrella target [sdk] whose dependencies must always be built:
    [llvm] and [qemu], and [llvm] depends on [cmake]. *)
Definition sdk_umbrella : Target :=
  mkTarget "sdk" (mkProjectClass "sdk" true false false None false) ClsTarget.
Definition umbrella : ProjectApi :=
  catalog
    (fun n => if String.eqb n "sdk" then [simple_target "llvm"; simple_target "qemu"]
              else if String.eqb n "llvm" then [simple_target "cmake"] else [])
    (fun n => if String.eqb n "sdk"
              then [simple_target "llvm"; simple_target "cmake"; simple_target "qemu"]
              else if String.eqb n "llvm" then [simple_target "cmake"] else []).

(** ** More on the registry *)

(** The registry after the targets of a list have been added in turn, as
    when the project classes are loaded. *)
Definition register_all (ts : list Target) (self : TargetManager) : TargetManager :=
  fold_left (fun m t => match addTarget m t with
                        | Returned m' => m'
                        | Raised _ => m
                        end) ts self.

(** [TargetManager.targetNames]: the keys of the dictionary. *)
Definition targetNames (self : TargetManager) : gset string := dom (_allTargets self).

(** ** More on [topologicalSort] *)

(** A name among the dependency names of a target of the list that is the
    name of no target of the list. *)
Definition missing_dependency (P : ProjectApi) (targets : list Target)
    (dep : string) : Prop :=
  (exists t, t ∈ targets /\ dep ∈ allDependencyNames P (projectClass t) None)
  /\ forall t, t ∈ targets -> name t ≠ dep.

(** [llvm] names the dependency [cmake]. *)
Definition names_cmake : ProjectApi :=
  mkApi (fun _ _ => []) (fun _ _ => []) (fun _ => [])
        (fun c _ => if String.eqb (__name__ c) "llvm" then ["cmake"] else [])
        (fun _ _ => None) (fun _ => None) (fun _ => None) (fun _ => None).

(** ** [TargetManager.run]: the targets of a process *)

(** The [Target] objects of a process: every object has its attributes;
    the class attribute [Target.instantiating_targets_should_warn], the
    project instances and the log are shared by all of them. *)
Record Process := mkProcess {
  attributes : Target -> TargetState;
  shared : World
}.

(** Why [get_all_chosen_targets] calls [sys.exit].  The registry does not
    keep the order in which the targets were added, so the names in the
    message "Invalid dependency ... for ..." (those of the first pair that
    the loops find) and the list of valid choices are left out. *)
Inductive exit_reason :=
| InvalidDependency
| TargetDoesNotExist (targetName : string).

(** How a call ends: it returns, it ends the process with [sys.exit], or it
    raises an exception that [targets.py] does not catch. *)
Inductive outcome (A : Type) :=
| Finished (a : A)
| SystemExit (reason : exit_reason)
| Uncaught (e : exn).
Arguments Finished {A} a.
Arguments SystemExit {A} reason.
Arguments Uncaught {A} e.

Definition R (A : Type) : Type := Process -> outcome A * Process.

Global Instance R_ret : MRet R := fun A a π => (Finished a, π).
Global Instance R_bind : MBind R := fun A B f m π =>
  match m π with
  | (Finished a, π') => f a π'
  | (SystemExit r, π') => (SystemExit r, π')
  | (Uncaught e, π') => (Uncaught e, π')
  end.

(** The attributes of the object [self] are now [s]. *)
Definition set_attributes (self : Target) (s : TargetState)
    (attrs : Target -> TargetState) : Target -> TargetState :=
  fun t => if decide (t = self) then s else attrs t.

(** A method of [Target] called on the object [self]. *)
Definition on_object {A} (self : Target) (m : M A) : R A := fun π =>
  match m (attributes π self, shared π) with
  | (Returned a, (s, w)) => (Finished a, mkProcess (set_attributes self s (attributes π)) w)
  | (Raised e, (s, w)) => (Uncaught e, mkProcess (set_attributes self s (attributes π)) w)
  end.

(** [statusUpdate] called outside the methods of a target. *)
Definition statusUpdate (args : list string) : R unit := fun π =>
  let w := shared π in
  (Finished (),
   mkProcess (attributes π)
             (mkWorld (instantiating_targets_should_warn w) (instances_created w)
                      (log w ++ [StatusUpdate args]))).

(** The object whose attributes [target.checkSystemDeps(config)] and
    [target.execute(config)] work on: [target] itself, or for a
    [MultiArchTargetAlias] the target that [get_real_target(None, config)]
    returns. *)
Definition receiver (P : ProjectApi) (derived_targets : Target -> list Target)
    (config : CheriConfig) (target : Target) : result Target :=
  match cls target with
  | ClsMultiArchTargetAlias =>
      get_real_target P target (derived_targets target) None config
  | _ => Returned target
  end.

(** [target.checkSystemDeps(config)] and [target.execute(config)] with the
    method chosen by the class of [target]; [meth] is the method of
    [Target]. *)
Definition call_method (P : ProjectApi) (derived_targets : Target -> list Target)
    (config : CheriConfig) (meth : Target -> M unit) (target : Target) : R unit :=
  match receiver P derived_targets config target with
  | Returned tgt => on_object tgt (meth tgt)
  | Raised e => fun π => (Uncaught e, π)
  end.

(** A [for] loop over a list. *)
Fixpoint for_each {A} (l : list A) (body : A -> R unit) : R unit :=
  match l with
  | [] => mret ()
  | x :: rest => body x ;; for_each rest body
  end.

(** The first loop of [get_all_chosen_targets] finds no dependency whose
    name is not registered. *)
Definition dependencies_registered (P : ProjectApi) (self : TargetManager)
    (config : CheriConfig) : Prop :=
  map_Forall (fun _ t =>
                Forall (fun dep => is_Some (_allTargets self !! name dep))
                       (get_dependencies P t (Some config)))
             (_allTargets self).

(** The second loop of [get_all_chosen_targets]: [explicitlyChosenTargets]
    when the loop ends, unless a name is not registered or [get_target]
    raises. *)
Fixpoint explicitlyChosenTargets (P : ProjectApi) (self : TargetManager)
    (derived_targets : Target -> list Target) (config : CheriConfig)
    (names : list string) : outcome (list Target) :=
  match names with
  | [] => Finished []
  | targetName :: rest =>
      match _allTargets self !! targetName with
      | None => SystemExit (TargetDoesNotExist targetName)
      | Some _ =>
          match get_target P self derived_targets targetName None config with
          | Raised e => Uncaught e
          | Returned t =>
              match explicitlyChosenTargets P self derived_targets config rest with
              | Finished chosen => Finished (t :: chosen)
              | SystemExit r => SystemExit r
              | Uncaught e => Uncaught e
              end
          end
      end
  end.

(** [TargetManager.get_all_chosen_targets].  What [print] writes to the
    standard output is not part of the log. *)
Definition get_all_chosen_targets (P : ProjectApi) (self : TargetManager)
    (derived_targets : Target -> list Target) (config : CheriConfig)
  : R (list Target) := fun π =>
  if decide (dependencies_registered P self config) then
    match explicitlyChosenTargets P self derived_targets config (targets config) with
    | Finished explicit =>
        let chosenTargets := get_all_targets P explicit config in
        let w := shared π in
        (Finished chosenTargets,
         mkProcess (attributes π) (mkWorld false (instances_created w) (log w)))
    | SystemExit r => (SystemExit r, π)
    | Uncaught e => (Uncaught e, π)
    end
  else (SystemExit InvalidDependency, π).

(** The two loops of [TargetManager.run]. *)
Definition check_all (P : ProjectApi) (derived_targets : Target -> list Target)
    (config : CheriConfig) (chosenTargets : list Target) : R unit :=
  for_each chosenTargets
    (call_method P derived_targets config (fun tgt => checkSystemDeps P tgt config)).

Definition execute_all (P : ProjectApi) (derived_targets : Target -> list Target)
    (config : CheriConfig) (chosenTargets : list Target) : R unit :=
  for_each chosenTargets (fun target =>
    if print_targets_only config then
      statusUpdate ["Will build target"; name target]
    else
      call_method P derived_targets config (fun tgt => execute P tgt config) target).

(** [TargetManager.run]. *)
Definition run (P : ProjectApi) (self : TargetManager)
    (derived_targets : Target -> list Target) (config : CheriConfig) : R unit :=
  chosenTargets ← get_all_chosen_targets P self derived_targets config ;
  check_all P derived_targets config chosenTargets ;;
  execute_all P derived_targets config chosenTargets.

(** The events of the two loops of [run]. *)
Definition of_check (ev : event) : bool := is_instantiated ev || is_checked ev.

(** A process in which no target has been touched. *)
Definition new_process : Process := mkProcess (fun _ => init_state) (mkWorld true 0 []).

(** The log of [w'] is the log of [w], then events that [f] accepts. *)
Definition grows (f : event -> bool) (w w' : World) : Prop :=
  exists evs, log w' = log w ++ evs /\ forallb f evs = true.




(** Requests for the catalog of [libcxx]. *)
Definition build_libcxx : CheriConfig :=
  mkConfig false false false false false "" ["libcxx"].
Definition list_libcxx : CheriConfig :=
  mkConfig false false false true false "" ["libcxx"].
Definition build_unknown : CheriConfig :=
  mkConfig false false false false false "" ["libcxx"; "libunwind"].

(** The catalog of [libcxx] when a tool that the projects need is missing:
    [checkSystemDependencies] raises. *)
Definition missing_tool : ProjectApi :=
  mkApi (fun _ _ => []) (fun _ _ => []) (fun _ => []) (fun _ _ => [])
        (fun c _ => default_architecture c)
        (fun _ => Some (ProjectError "missing tool")) (fun _ => None) (fun _ => None).

(** The process once [get_all_chosen_targets] has returned. *)
Definition running : Process := mkProcess (fun _ => init_state) (mkWorld false 0 []).

(** The target [llvm] after a call of [run_tests], and the project instance
    that [executed] gets after [reset]. *)
Definition tested_llvm : TargetState * World :=
  (run_tests no_dependencies (simple_target "llvm") no_flags fresh).2.
Definition second_instance : Project := mkProject 1 (simple_class "llvm") no_flags.


(** * Properties *)
(** ** The sort on a strict weak order *)

Section SortTheory.
Context {A : Type} (lt : A -> A -> bool).

(** [lt] is a strict weak order on the elements in [D]. *)
Context (D : A -> Prop).
Hypothesis lt_asym : forall x y, D x -> D y -> lt x y = true -> lt y x = false.
Hypothesis lt_negtrans :
  forall x y z, D x -> D y -> D z ->
                lt x y = false -> lt y z = false -> lt x z = false.

Lemma lt_trans_on x y z :
  D x -> D y -> D z -> lt x y = true -> lt y z = true -> lt x z = true.
Proof.
  intros Hx Hy Hz Hxy Hyz.
  destruct (lt x z) eqn:Hxz; [done|].
  pose proof (lt_asym _ _ Hy Hz Hyz) as Hzy.
  pose proof (lt_negtrans _ _ _ Hx Hz Hy Hxz Hzy). congruence.
Qed.

Lemma bisect_S n pivot a l r :
  bisect lt (S n) pivot a l r =
  if l <? r then
    if lt pivot (nth (l + (r - l) / 2) a pivot)
    then bisect lt n pivot a l (l + (r - l) / 2)
    else bisect lt n pivot a (l + (r - l) / 2 + 1) r
  else l.
Proof. reflexivity. Qed.

Lemma bisect_spec n pivot a l r :
  r - l <= n -> l <= r -> r <= length a ->
  StronglySorted (not_after lt) a -> Forall D a -> D pivot ->
  Forall (fun e => lt pivot e = false) (take l a) ->
  Forall (fun e => lt pivot e = true) (drop r a) ->
  let k := bisect lt n pivot a l r in
  k <= length a
  /\ Forall (fun e => lt pivot e = false) (take k a)
  /\ Forall (fun e => lt pivot e = true) (drop k a).
Proof.
  revert l r. induction n as [|n IH]; intros l r Hn Hlr Hr Hs HD Hp Hlo Hhi.
  - simpl. assert (l = r) as -> by lia. auto.
  - cbn zeta. rewrite bisect_S. destruct (Nat.ltb_spec l r) as [Hlt|Hge]; [|assert (l = r) as -> by lia; auto].
    set (p := l + (r - l) / 2).
    assert (Hpl : l <= p) by (unfold p; lia).
    assert (Hpr : p < r).
    { unfold p. pose proof (Nat.div_lt (r - l) 2). lia. }
    assert (Hpn : p - l <= n /\ r - (p + 1) <= n) by lia.
    destruct (lookup_lt_is_Some_2 a p) as [x Hx]; [lia|].
    rewrite (nth_lookup_Some a p pivot x Hx).
    pose proof (take_drop_middle a p x Hx) as Hsplit.
    assert (Dx : D x).
    { rewrite Forall_forall in HD. apply HD. by eapply list_elem_of_lookup_2. }
    pose proof Hs as Hs'. pose proof HD as HD'.
    rewrite <- Hsplit in Hs', HD'.
    apply StronglySorted_app in Hs' as (Hcross & _ & Hs2).
    apply StronglySorted_cons in Hs2 as [Hx2 _].
    apply Forall_app in HD' as [HD1 HD2]. apply Forall_cons in HD2 as [_ HD2].
    destruct (lt pivot x) eqn:Hpx.
    + apply IH; try lia; try done.
      rewrite (drop_S a x p Hx). constructor; [done|].
      rewrite Forall_forall in Hx2, HD2. apply Forall_forall. intros e He.
      destruct (lt pivot e) eqn:Hpe; [done|].
      pose proof (lt_negtrans pivot e x Hp (HD2 _ He) Dx Hpe (Hx2 _ He)). congruence.
    + apply IH; try lia; try done.
      replace (p + 1) with (S p) by lia.
      rewrite (take_S_r a p x Hx). apply Forall_app. split; [|by repeat constructor].
      rewrite Forall_forall in HD1. apply Forall_forall. intros e He.
      apply (lt_negtrans pivot x e Hp Dx (HD1 _ He) Hpx).
      apply (Hcross e x); [done|left].
Qed.

Lemma binary_insert_perm a pivot : binary_insert lt a pivot ≡ₚ pivot :: a.
Proof.
  unfold binary_insert.
  rewrite <- Permutation_middle. by rewrite take_drop.
Qed.

Lemma binary_insert_sorted a pivot :
  StronglySorted (not_after lt) a -> Forall D a -> D pivot ->
  StronglySorted (not_after lt) (binary_insert lt a pivot).
Proof.
  intros Hs HD Hp. unfold binary_insert.
  destruct (bisect_spec (length a) pivot a 0 (length a)) as (Hk & Hlo & Hhi);
    try done; try lia.
  { rewrite drop_all. constructor. }
  set (k := bisect lt (length a) pivot a 0 (length a)) in *.
  rewrite <- (take_drop k a) in Hs, HD.
  apply StronglySorted_app in Hs as (Hcross & Hs1 & Hs2).
  apply Forall_app in HD as [HD1 HD2].
  apply StronglySorted_app. split_and!; [|done|].
  - intros x y Hx Hy. apply elem_of_cons in Hy as [->|Hy]; [|by apply Hcross].
    rewrite Forall_forall in Hlo. by apply Hlo.
  - apply StronglySorted_cons. split; [|done].
    rewrite Forall_forall in Hhi, HD2. apply Forall_forall. intros e He.
    apply lt_asym; auto.
Qed.

Lemma binarysort_perm rest run : binarysort lt run rest ≡ₚ run ++ rest.
Proof.
  revert run. induction rest as [|x rest IH]; intros run; simpl.
  - by rewrite app_nil_r.
  - unfold binarysort in *. simpl. rewrite IH, binary_insert_perm.
    by rewrite <- Permutation_middle.
Qed.

Lemma binarysort_sorted rest run :
  StronglySorted (not_after lt) run -> Forall D run -> Forall D rest ->
  StronglySorted (not_after lt) (binarysort lt run rest).
Proof.
  revert run. induction rest as [|x rest IH]; intros run Hs HD Hr; simpl; [done|].
  apply Forall_cons in Hr as [Hx Hr].
  unfold binarysort in *. simpl. apply IH; [by apply binary_insert_sorted| |done].
  rewrite binary_insert_perm. by constructor.
Qed.

Lemma run_ascending_le prev l : run_ascending lt prev l <= length l.
Proof. revert prev. induction l as [|x l IH]; intros prev; simpl; [lia|]. destruct (lt x prev); [lia|]. specialize (IH x). lia. Qed.

Lemma run_descending_le prev l : run_descending lt prev l <= length l.
Proof. revert prev. induction l as [|x l IH]; intros prev; simpl; [lia|]. destruct (lt x prev); [|lia]. specialize (IH x). lia. Qed.

Lemma run_ascending_sorted prev l :
  D prev -> Forall D l ->
  StronglySorted (not_after lt) (prev :: take (run_ascending lt prev l) l).
Proof.
  revert prev. induction l as [|x l IH]; intros prev Hp HD; simpl.
  - repeat constructor.
  - apply Forall_cons in HD as [Hx HD].
    destruct (lt x prev) eqn:Hlt; simpl; [repeat constructor|].
    specialize (IH x Hx HD). constructor; [done|].
    constructor; [done|].
    apply StronglySorted_cons in IH as [IH _].
    assert (HDt : Forall D (take (run_ascending lt x l) l)) by by apply Forall_take.
    rewrite Forall_forall in IH, HDt. apply Forall_forall. intros e He.
    unfold not_after in *. apply (lt_negtrans e x prev); auto.
Qed.

Lemma run_descending_sorted prev l :
  D prev -> Forall D l ->
  StronglySorted (fun x y => lt y x = true) (prev :: take (run_descending lt prev l) l).
Proof.
  revert prev. induction l as [|x l IH]; intros prev Hp HD; simpl.
  - repeat constructor.
  - apply Forall_cons in HD as [Hx HD].
    destruct (lt x prev) eqn:Hlt; simpl; [|repeat constructor].
    specialize (IH x Hx HD). constructor; [done|].
    constructor; [done|].
    apply StronglySorted_cons in IH as [IH _].
    assert (HDt : Forall D (take (run_descending lt x l) l)) by by apply Forall_take.
    rewrite Forall_forall in IH, HDt. apply Forall_forall. intros e He.
    apply (lt_trans_on e x prev); auto.
Qed.

Lemma StronglySorted_rev (R : A -> A -> Prop) l :
  StronglySorted R l -> StronglySorted (fun x y => R y x) (reverse l).
Proof.
  induction 1 as [|x l Hs IH Hx]; [constructor|].
  rewrite reverse_cons. apply StronglySorted_app. split_and!; [|done|repeat constructor].
  intros a b Ha Hb. apply list_elem_of_singleton in Hb as ->.
  rewrite Forall_forall in Hx. apply Hx.
  by rewrite elem_of_reverse in Ha.
Qed.

Lemma sorted_perm l : sorted lt l ≡ₚ l.
Proof.
  unfold sorted. destruct (count_run lt l) as [n d].
  rewrite binarysort_perm.
  transitivity (take n l ++ drop n l); [|by rewrite take_drop].
  apply Permutation_app; [|done].
  destruct d; [|done]. by rewrite reverse_Permutation.
Qed.

Lemma ascending_not_after l :
  StronglySorted (fun x y => lt x y = true) l -> Forall D l ->
  StronglySorted (not_after lt) l.
Proof.
  induction 1 as [|a l Hs IH Ha]; intros HD; [constructor|].
  apply Forall_cons in HD as [Da HD]. constructor; [by apply IH|].
  rewrite Forall_forall in Ha, HD. apply Forall_forall. intros e He.
  apply lt_asym; auto.
Qed.

Lemma sorted_sorted l : Forall D l -> StronglySorted (not_after lt) (sorted lt l).
Proof.
  intros HD. unfold sorted.
  destruct (count_run lt l) as [n d] eqn:Hrun.
  assert (HDt : Forall D (take n l)) by by apply Forall_take.
  assert (HDd : Forall D (drop n l)) by by apply Forall_drop.
  apply binarysort_sorted; [|destruct d; [|done]|done].
  2: { by rewrite reverse_Permutation. }
  destruct l as [|x [|y l]]; simpl in Hrun.
  - injection Hrun as <- <-. constructor.
  - injection Hrun as <- <-. repeat constructor.
  - apply Forall_cons in HD as [Hx HD]. pose proof HD as HD'.
    apply Forall_cons in HD' as [Hy HD'].
    destruct (lt y x) eqn:Hyx; injection Hrun as <- <-;
      rewrite !firstn_cons in *.
    + pose proof (run_descending_sorted y l Hy HD') as Hs.
      apply ascending_not_after; [|by rewrite reverse_Permutation].
      apply (StronglySorted_rev (fun a b => lt b a = true)).
      constructor; [done|]. constructor; [done|].
      apply StronglySorted_cons in Hs as [Hs _].
      apply Forall_cons in HDt as [_ HDt]. apply Forall_cons in HDt as [_ HDt].
      rewrite Forall_forall in Hs, HDt. apply Forall_forall. intros e He.
      apply (lt_trans_on e y x); auto.
    + pose proof (run_ascending_sorted y l Hy HD') as Hs.
      constructor; [done|]. constructor; [done|].
      apply StronglySorted_cons in Hs as [Hs _].
      apply Forall_cons in HDt as [_ HDt]. apply Forall_cons in HDt as [_ HDt].
      rewrite Forall_forall in Hs, HDt. apply Forall_forall. intros e He.
      unfold not_after in *. apply (lt_negtrans e y x); auto.
Qed.
End SortTheory.

(** ** The sort by a relation that follows a key *)

Section SortByKey.
Context {A : Type} (lt : A -> A -> bool) (key : A -> nat).

(** On the elements in [D], [lt] holds between elements with keys in
    ascending order, and only between elements whose keys are not in
    descending order. *)
Context (D : A -> Prop).
Hypothesis lt_of_key : forall x y, D x -> D y -> key x < key y -> lt x y = true.
Hypothesis key_of_lt : forall x y, D x -> D y -> lt x y = true -> key x <= key y.







End SortByKey.

(** ** The keys of an [OrderedDict] *)

Section Keys.
Context {A : Type} `{EqDecision A}.

Let add_key (d : list A) (x : A) : list A :=
  if decide (x ∈ d) then d else d ++ [x].

Lemma fold_keys_sublist (l pre d : list A) :
  d `sublist_of` pre -> fold_left add_key l d `sublist_of` pre ++ l.
Proof.
  revert pre d. induction l as [|x l IH]; intros pre d Hd; simpl.
  - by rewrite app_nil_r.
  - replace (pre ++ x :: l) with ((pre ++ [x]) ++ l) by by rewrite <- app_assoc.
    apply IH. unfold add_key. case_decide.
    + by apply sublist_inserts_r.
    + by apply sublist_app.
Qed.

Lemma fold_keys_elem (l d : list A) x :
  x ∈ fold_left add_key l d <-> x ∈ d \/ x ∈ l.
Proof.
  revert d. induction l as [|y l IH]; intros d; simpl.
  - rewrite elem_of_nil. tauto.
  - rewrite IH, elem_of_cons. unfold add_key. case_decide.
    + split; [tauto|]. intros [?|[->|?]]; auto.
    + rewrite elem_of_app, list_elem_of_singleton. tauto.
Qed.

Lemma fold_keys_NoDup (l d : list A) : NoDup d -> NoDup (fold_left add_key l d).
Proof.
  revert d. induction l as [|y l IH]; intros d Hd; simpl; [done|].
  apply IH. unfold add_key. case_decide; [done|].
  apply NoDup_app. split_and!; [done| |apply NoDup_singleton].
  intros x Hx Hx'. apply list_elem_of_singleton in Hx' as ->. done.
Qed.

Lemma OrderedDict_keys_sublist (l : list A) : OrderedDict_keys l `sublist_of` l.
Proof. apply (fold_keys_sublist l [] []). constructor. Qed.

Lemma OrderedDict_keys_elem (l : list A) x : x ∈ OrderedDict_keys l <-> x ∈ l.
Proof.
  pose proof (fold_keys_elem l [] x) as H. rewrite elem_of_nil in H.
  unfold OrderedDict_keys. tauto.
Qed.

Lemma OrderedDict_keys_NoDup (l : list A) : NoDup (OrderedDict_keys l).
Proof. apply fold_keys_NoDup. constructor. Qed.

Lemma StronglySorted_sublist (R : A -> A -> Prop) (l1 l2 : list A) :
  l1 `sublist_of` l2 -> StronglySorted R l2 -> StronglySorted R l1.
Proof.
  induction 1 as [|x l1 l2 Hsub IH|x l1 l2 Hsub IH]; intros Hs; [done| |].
  - apply StronglySorted_cons in Hs as [Hx Hs].
    constructor; [by apply IH|].
    rewrite Forall_forall in Hx. apply Forall_forall. intros e He.
    apply Hx. by eapply elem_of_sublist.
  - apply StronglySorted_cons in Hs as [_ Hs]. by apply IH.
Qed.

Lemma StronglySorted_lookup (R : A -> A -> Prop) (l : list A) i j x y :
  StronglySorted R l -> l !! i = Some x -> l !! j = Some y -> i < j -> R x y.
Proof.
  intros Hs. revert i j. induction Hs as [|a l Hs IH Ha]; intros i j Hi Hj Hij.
  - by rewrite lookup_nil in Hi.
  - destruct j as [|j]; [lia|]. destruct i as [|i]; simpl in *.
    + injection Hi as ->. rewrite Forall_forall in Ha. apply Ha.
      by eapply list_elem_of_lookup_2.
    + apply (IH i j); auto with lia.
Qed.
End Keys.

(** ** The plan on a strict weak order *)

Lemma strict_weak_on_spec {A} (lt : A -> A -> bool) (l : list A) :
  strict_weak_on lt l = true ->
  (forall x y, x ∈ l -> y ∈ l -> lt x y = true -> lt y x = false)
  /\ (forall x y z, x ∈ l -> y ∈ l -> z ∈ l ->
                    lt x y = false -> lt y z = false -> lt x z = false).
Proof.
  unfold strict_weak_on. rewrite forallb_forall. intros H.
  split.
  - intros x y Hx Hy Hxy. rewrite list_elem_of_In in Hx, Hy.
    specialize (H x Hx). rewrite forallb_forall in H. specialize (H y Hy).
    apply andb_true_iff in H as [H _]. rewrite Hxy in H. simpl in H.
    by apply negb_true_iff.
  - intros x y z Hx Hy Hz Hxy Hyz. rewrite list_elem_of_In in Hx, Hy, Hz.
    specialize (H x Hx). rewrite forallb_forall in H. specialize (H y Hy).
    apply andb_true_iff in H as [_ H]. rewrite forallb_forall in H.
    specialize (H z Hz). rewrite Hxy, Hyz in H. simpl in H.
    by apply negb_true_iff.
Qed.

(** In the plan no target comes before a target that is less than it, and
    the plan has the chosen targets, each once. *)
Lemma plan_sorted (P : ProjectApi) (chosen : list Target) :
  strict_weak_on (__lt__ P) chosen = true ->
  StronglySorted (not_after (__lt__ P)) (sort_in_dependency_order P chosen).
Proof.
  intros [Hasym Hneg]%strict_weak_on_spec. unfold sort_in_dependency_order.
  eapply StronglySorted_sublist; [apply OrderedDict_keys_sublist|].
  apply (sorted_sorted (__lt__ P) (fun t => t ∈ chosen)); [done|done|].
  by apply Forall_forall.
Qed.

Lemma plan_elem (P : ProjectApi) (chosen : list Target) (t : Target) :
  t ∈ sort_in_dependency_order P chosen <-> t ∈ chosen.
Proof.
  unfold sort_in_dependency_order.
  by rewrite OrderedDict_keys_elem, sorted_perm.
Qed.

Lemma plan_NoDup (P : ProjectApi) (chosen : list Target) :
  NoDup (sort_in_dependency_order P chosen).
Proof. apply OrderedDict_keys_NoDup. Qed.

(** A target that is less than another one comes before it. *)
Lemma plan_lt_before (P : ProjectApi) (chosen : list Target) x y i j :
  strict_weak_on (__lt__ P) chosen = true ->
  sort_in_dependency_order P chosen !! i = Some x ->
  sort_in_dependency_order P chosen !! j = Some y ->
  __lt__ P x y = true ->
  i < j.
Proof.
  intros Hsw Hi Hj Hlt.
  pose proof (plan_sorted P chosen Hsw) as Hs.
  destruct (strict_weak_on_spec _ _ Hsw) as [Hasym _].
  destruct (Nat.lt_trichotomy i j) as [?|[->|Hji]]; [done| |].
  - rewrite Hi in Hj. injection Hj as ->.
    assert (Hy : y ∈ chosen).
    { apply (plan_elem P). by eapply list_elem_of_lookup_2. }
    pose proof (Hasym y y Hy Hy Hlt). congruence.
  - pose proof (StronglySorted_lookup _ _ _ _ _ _ Hs Hj Hi Hji) as Hn.
    unfold not_after in Hn. congruence.
Qed.

Lemma startswith_disk_image_not_run (s : string) :
  startswith s "disk-image" = true -> startswith s "run" = false.
Proof.
  unfold startswith. destruct s as [|c s]; [done|]. cbn -[Ascii.ascii_dec].
  destruct (Ascii.ascii_dec "d" c) as [<-|]; [|done].
  intros _. by destruct (Ascii.ascii_dec "r" "d").
Qed.

Lemma name_before_class (x y : Target) :
  name_before x y = true <-> name_class x < name_class y.
Proof.
  unfold name_before, name_class.
  destruct (startswith (name x) "disk-image") eqn:Hdx;
    [rewrite (startswith_disk_image_not_run _ Hdx)|];
    (destruct (startswith (name y) "disk-image") eqn:Hdy;
     [rewrite (startswith_disk_image_not_run _ Hdy)|]);
    repeat match goal with |- context [startswith ?s "run"] =>
             destruct (startswith s "run") end;
    simpl; split; (done || lia).
Qed.

Lemma name_before_lt (P : ProjectApi) (x y : Target) :
  x ∉ _cached_dependencies P (projectClass y) ->
  y ∉ _cached_dependencies P (projectClass x) ->
  name_before x y = true ->
  __lt__ P x y = true.
Proof.
  intros Hx Hy. unfold name_before, __lt__, target_in.
  rewrite !bool_decide_eq_false_2 by done.
  destruct (startswith (name x) "disk-image") eqn:Hdx.
  - rewrite (startswith_disk_image_not_run _ Hdx). simpl.
    destruct (startswith (name y) "run"); simpl; [done|].
    by rewrite !andb_false_r.
  - destruct (startswith (name x) "run"), (startswith (name y) "run"),
      (startswith (name y) "disk-image"); by simpl.
Qed.

Lemma lt_name_class (P : ProjectApi) (x y : Target) :
  x ∉ _cached_dependencies P (projectClass y) ->
  __lt__ P x y = true -> name_class x < name_class y.
Proof.
  intros Hx. unfold __lt__, target_in, name_class.
  rewrite (bool_decide_eq_false_2 _ Hx).
  case_bool_decide; [done|].
  destruct (startswith (name x) "disk-image") eqn:Hdx;
    [rewrite (startswith_disk_image_not_run _ Hdx)|];
    (destruct (startswith (name y) "disk-image") eqn:Hdy;
     [rewrite (startswith_disk_image_not_run _ Hdy)|]);
    repeat match goal with |- context [startswith ?s "run"] =>
             destruct (startswith s "run") end;
    simpl; (done || lia).
Qed.



(** When the ordering is a strict weak order on the chosen targets, the plan
    is in dependency order: every target of the plan comes strictly after
    each of its cached (transitive) dependencies that is in the plan. *)
Theorem plan_in_dependency_order (P : ProjectApi) (explicit_targets : list Target)
    (config : CheriConfig) :
  strict_weak_on (__lt__ P) (chosen_targets P config explicit_targets) = true ->
  in_dependency_order P (get_all_targets P explicit_targets config).
Proof.
  intros Hsw a b i j Hi Hj Hdep.
  apply (plan_lt_before P _ a b i j Hsw Hi Hj).
  unfold __lt__, target_in. by rewrite bool_decide_eq_true_2.
Qed.


(** ** The expansion *)

Lemma chosen_targets_single (P : ProjectApi) (config : CheriConfig) (t d : Target) :
  d ∈ get_all_targets P [t] config
  <-> d = t \/ (d ∈ deps_to_add P config t
                /\ (skipSdk config && is_sdk_target (projectClass d)) = false).
Proof.
  unfold get_all_targets. rewrite plan_elem. simpl.
  rewrite app_nil_r, elem_of_cons. unfold added_dependencies.
  rewrite list_elem_of_filter, negb_true_iff. tauto.
Qed.

(** C2, as amended: with [--skip-sdk] the plan for [t] holds [t] and the
    targets of the dependency list chosen for [t] that are not SDK targets.
    An SDK target of the list is dropped; a target that the list holds
    because the SDK target depends on it is not. *)
Theorem skip_sdk_expansion (P : ProjectApi) (config : CheriConfig) (t d : Target) :
  skipSdk config = true ->
  d ∈ get_all_targets P [t] config
  <-> d = t \/ (d ∈ deps_to_add P config t /\ is_sdk_target (projectClass d) = false).
Proof. intros Hskip. rewrite chosen_targets_single, Hskip. done. Qed.


(** ** The life cycle of a target *)

Lemma count_events_app f l1 l2 :
  count_events f (l1 ++ l2) = count_events f l1 + count_events f l2.
Proof. unfold count_events. by rewrite List.filter_app, length_app. Qed.

Section LifeCycle.
Context (P : ProjectApi) (self : Target).

Ltac run_method :=
  unfold checkSystemDeps, execute, run_tests, get_or_create_project, create_project,
    _create_project, call, emit, assert_, instantiate, raise, put_state,
    mbind, M_bind, get_state, get_world, mret, M_ret; simpl.

Lemma get_or_create_project_cached arch config s w p :
  __project s = Some p ->
  get_or_create_project self arch config (s, w) = (Returned p, (s, w)).
Proof. intros Hp. run_method. rewrite Hp. simpl. by rewrite Hp. Qed.

Lemma get_or_create_project_returns arch config σ p σ' :
  get_or_create_project self arch config σ = (Returned p, σ') ->
  __project σ'.1 = Some p.
Proof.
  destruct σ as [s w]. run_method.
  destruct (__project s) as [q|] eqn:Hq; simpl.
  - rewrite Hq. by intros [= <- <-].
  - destruct (_creating_project s); simpl; [done|].
    destruct (instantiating_targets_should_warn w); simpl; [done|].
    destruct (cls self); simpl;
      try destruct (is_cross_compile_class (projectClass self)); simpl;
      try done; by intros [= <- <-].
Qed.

(** The first call on a target without a project creates a new instance. *)
Lemma get_or_create_project_creates arch config s w p σ' :
  __project s = None ->
  get_or_create_project self arch config (s, w) = (Returned p, σ') ->
  p = mkProject (instances_created w) (projectClass self) config
  /\ log σ'.2 = log w ++ [Instantiated p]
  /\ instances_created σ'.2 = S (instances_created w).
Proof.
  intros Hq. run_method. rewrite Hq. simpl.
  destruct (_creating_project s); simpl; [done|].
  destruct (instantiating_targets_should_warn w); simpl; [done|].
  destruct (cls self); simpl;
    try destruct (is_cross_compile_class (projectClass self)); simpl;
    try done; by intros [= <- <-].
Qed.

(** When the target can have a project, [get_or_create_project] returns
    one, and records nothing but the creation of the instance. *)
Lemma get_or_create_project_can arch config σ :
  can_have_project self σ ->
  exists p σ',
    get_or_create_project self arch config σ = (Returned p, σ')
    /\ __project σ'.1 = Some p
    /\ _completed σ'.1 = _completed σ.1
    /\ count_events is_checked (log σ'.2) = count_events is_checked (log σ.2)
    /\ count_events is_processed (log σ'.2) = count_events is_processed (log σ.2).
Proof.
  destruct σ as [s w]. intros [[p Hp]|(Hc & Hw & Hcls)]; simpl in *.
  - exists p, (s, w). by rewrite (get_or_create_project_cached _ _ _ _ p).
  - destruct (__project s) as [p|] eqn:Hp.
    { exists p, (s, w). by rewrite (get_or_create_project_cached _ _ _ _ p). }
    run_method. rewrite Hp. simpl. rewrite Hc. simpl. rewrite Hw. simpl.
    unfold class_accepted in Hcls.
    destruct (cls self); simpl; try rewrite Hcls; simpl;
      eexists _, _; (split; [reflexivity|]); simpl;
      rewrite !count_events_app; simpl; split_and!; auto with lia.
Qed.

Lemma checkSystemDeps_completed config s w :
  _completed s = true ->
  checkSystemDeps P self config (s, w) = (Returned (), (s, w)).
Proof. intros Hc. run_method. by rewrite Hc. Qed.

(** Before the target is executed every call of [checkSystemDeps] checks. *)
Lemma checkSystemDeps_checks config σ :
  _completed σ.1 = false -> can_have_project self σ ->
  let σ' := (checkSystemDeps P self config σ).2 in
  _completed σ'.1 = false
  /\ can_have_project self σ'
  /\ count_events is_checked (log σ'.2) = S (count_events is_checked (log σ.2)).
Proof.
  intros Hc Hcan.
  destruct (get_or_create_project_can None config σ Hcan)
    as (p & [s' w'] & Hrun & Hp & Hc' & Hchk & _).
  destruct σ as [s w]. simpl in *.
  unfold checkSystemDeps, mbind, M_bind, get_state. simpl. rewrite Hc.
  rewrite Hrun. unfold call, emit, mbind, M_bind, mret, M_ret, raise. simpl.
  destruct (checkSystemDependencies P p); simpl;
    rewrite count_events_app; simpl;
    (split_and!; [congruence|left; simpl; rewrite Hp; eauto
                 |unfold count_events in *; simpl; lia]).
Qed.
End LifeCycle.

Section LifeCycleClaims.
Context (P : ProjectApi) (self : Target).

Ltac run_method :=
  unfold checkSystemDeps, execute, run_tests, get_or_create_project, create_project,
    _create_project, call, emit, assert_, instantiate, raise, put_state,
    mbind, M_bind, get_state, get_world, mret, M_ret; simpl.

Lemma checkSystemDeps_repeated config n σ :
  _completed σ.1 = false -> can_have_project self σ ->
  count_events is_checked
    (log (invoke_all P self config (replicate n CheckSystemDeps) σ).2)
  = count_events is_checked (log σ.2) + n.
Proof.
  revert σ. induction n as [|n IH]; intros σ Hc Hcan; simpl; [lia|].
  destruct (checkSystemDeps_checks P self config σ Hc Hcan) as (Hc' & Hcan' & Hn).
  unfold invoke_all in *. rewrite IH by done. rewrite Hn. lia.
Qed.

Lemma execute_completed config s w :
  _completed s = true ->
  execute P self config (s, w)
  = (Returned (),
     (s, mkWorld (instantiating_targets_should_warn w) (instances_created w)
                 (log w ++ [already_executed self]))).
Proof. intros Hc. run_method. by rewrite Hc. Qed.

Lemma execute_returns config σ σ1 :
  execute P self config σ = (Returned (), σ1) -> _completed σ1.1 = true.
Proof.
  destruct σ as [s w]. run_method.
  destruct (_completed s) eqn:Hc; simpl; [by intros [= <-]|].
  destruct (__project s) as [p|]; simpl; [|done].
  destruct (process P p); simpl; [done|]. by intros [= <-].
Qed.

Lemma execute_first config σ σ1 :
  _completed σ.1 = false ->
  execute P self config σ = (Returned (), σ1) ->
  exists p, __project σ.1 = Some p
    /\ log σ1.2 = log σ.2 ++ [Processed p (new_env p);
                               StatusUpdate [("Built target '" ++ name self ++ "' in")%string;
                                             "seconds"]].
Proof.
  destruct σ as [s w]. simpl. intros Hc. run_method. rewrite Hc.
  destruct (__project s) as [p|]; simpl; [|done].
  destruct (process P p); simpl; [done|]. intros [= <-]. exists p. simpl.
  by rewrite <- app_assoc.
Qed.

Lemma execute_again config n s w :
  _completed s = true ->
  let σn := invoke_all P self config (replicate n Execute) (s, w) in
  σn.1 = s /\ log σn.2 = log w ++ replicate n (already_executed self).
Proof.
  intros Hc. revert w. induction n as [|n IH]; intros w; simpl.
  - by rewrite app_nil_r.
  - rewrite execute_completed by done. simpl.
    destruct (IH (mkWorld (instantiating_targets_should_warn w) (instances_created w)
                          (log w ++ [already_executed self]))) as [H1 H2].
    unfold invoke_all in *. split; [done|]. rewrite H2. simpl.
    by rewrite <- app_assoc.
Qed.

Lemma invoke_keeps_project config m s w p :
  __project s = Some p ->
  __project (invoke P self config m (s, w)).2.1 = Some p.
Proof.
  intros Hp. destruct m; simpl.
  - unfold mbind, M_bind. by rewrite (get_or_create_project_cached _ _ _ _ _ p).
  - unfold checkSystemDeps, mbind, M_bind, get_state. simpl.
    destruct (_completed s); simpl; [done|].
    rewrite (get_or_create_project_cached _ _ _ _ _ p) by done.
    unfold call, emit, mbind, M_bind, mret, M_ret, raise. simpl.
    by destruct (checkSystemDependencies P p).
  - run_method. destruct (_completed s); simpl; [done|]. rewrite Hp.
    by destruct (process P p).
  - unfold run_tests, mbind, M_bind, get_state. simpl.
    destruct (_tests_have_run s); simpl; [done|].
    rewrite (get_or_create_project_cached _ _ _ _ _ p) by done.
    unfold call, emit, mbind, M_bind, mret, M_ret, raise, get_state, put_state. simpl.
    by destruct (project_run_tests P p).
Qed.

Lemma invoke_all_keeps_project config ms σ p :
  __project σ.1 = Some p ->
  __project (invoke_all P self config ms σ).1 = Some p.
Proof.
  revert σ. induction ms as [|m ms IH]; intros [s w] Hp; simpl; [done|].
  apply IH. destruct (invoke P self config m (s, w)) as [r [s' w']] eqn:Hm.
  pose proof (invoke_keeps_project config m s w p Hp) as H. by rewrite Hm in H.
Qed.
End LifeCycleClaims.

(** C5, as amended: a call of [checkSystemDeps] on a target that has been
    executed does nothing; on a target that has not been executed (and that
    has or can get its project instance) every call checks the system
    dependencies, so [n] calls check them [n] times. *)
Theorem checkSystemDeps_until_executed (P : ProjectApi) (self : Target)
    (config : CheriConfig) (done_ todo : TargetState * World) (n : nat) :
  _completed done_.1 = true ->
  _completed todo.1 = false -> can_have_project self todo ->
  checkSystemDeps P self config done_ = (Returned (), done_)
  /\ count_events is_checked
       (log (invoke_all P self config (replicate n CheckSystemDeps) todo).2)
     = count_events is_checked (log todo.2) + n.
Proof.
  intros Hd Ht Hcan. split.
  - destruct done_ as [s w]. by apply checkSystemDeps_completed.
  - by apply checkSystemDeps_repeated.
Qed.

(** C6: when a call of [execute] on a target that has not been executed
    returns, it has run the build of the project once; the target is then
    marked as completed, and every later call of [execute] returns without
    raising, prints the warning and does nothing else. *)
Theorem execute_once (P : ProjectApi) (self : Target) (config : CheriConfig)
    (σ σ1 : TargetState * World) :
  _completed σ.1 = false ->
  execute P self config σ = (Returned (), σ1) ->
  count_events is_processed (log σ1.2) = S (count_events is_processed (log σ.2))
  /\ _completed σ1.1 = true
  /\ (exists w2, execute P self config σ1 = (Returned (), (σ1.1, w2))
                 /\ log w2 = log σ1.2 ++ [already_executed self])
  /\ (forall n,
        let σn := invoke_all P self config (replicate n Execute) σ1 in
        σn.1 = σ1.1
        /\ log σn.2 = log σ1.2 ++ replicate n (already_executed self)
        /\ count_events is_processed (log σn.2)
           = S (count_events is_processed (log σ.2))).
Proof.
  intros Hc Hrun.
  pose proof (execute_returns P self config σ σ1 Hrun) as Hc1.
  destruct (execute_first P self config σ σ1 Hc Hrun) as (p & Hp & Hlog).
  assert (Hcount : count_events is_processed (log σ1.2)
                   = S (count_events is_processed (log σ.2))).
  { rewrite Hlog, count_events_app. simpl. unfold count_events. simpl. lia. }
  destruct σ1 as [s1 w1]. simpl in *. split_and!; [done|done| |].
  - eexists. rewrite execute_completed by done. split; [reflexivity|done].
  - intros n. destruct (execute_again P self config n s1 w1 Hc1) as [H1 H2].
    split_and!; [done|done|]. cbn zeta in H2. rewrite H2, count_events_app, Hcount.
    assert (count_events is_processed (replicate n (already_executed self)) = 0); [|lia].
    clear. induction n; [done|]. simpl. done.
Qed.

(** C7: a call of [get_or_create_project] that returns leaves the instance
    it returns in the target; every later call returns this instance and
    changes nothing, no call of a method other than [reset] replaces it, and
    a call on a target without an instance creates a new one. *)
Theorem get_or_create_project_idempotent (self : Target)
    (arch : option CrossCompileTarget) (config : CheriConfig)
    (σ σ' : TargetState * World) (p : Project) :
  get_or_create_project self arch config σ = (Returned p, σ') ->
  (forall arch' config',
      get_or_create_project self arch' config' σ' = (Returned p, σ'))
  /\ (forall P config' ms, __project (invoke_all P self config' ms σ').1 = Some p)
  /\ (__project σ.1 = None ->
      instance_id p = instances_created σ.2
      /\ log σ'.2 = log σ.2 ++ [Instantiated p])
  /\ (forall q, __project σ.1 = Some q -> p = q /\ σ' = σ).
Proof.
  intros Hrun.
  pose proof (get_or_create_project_returns self arch config σ p σ' Hrun) as Hp.
  split_and!.
  - intros arch' config'. destruct σ' as [s' w']. by apply get_or_create_project_cached.
  - intros P config' ms. by apply invoke_all_keeps_project.
  - intros Hnone. destruct σ as [s w].
    destruct (get_or_create_project_creates self arch config s w p σ' Hnone Hrun)
      as (-> & Hlog & _). done.
  - intros q Hq. destruct σ as [s w].
    rewrite (get_or_create_project_cached self arch config s w q Hq) in Hrun.
    by injection Hrun as -> ->.
Qed.

(** ** The registry and the aliases *)

(** C3, as amended: [addTarget] always returns; afterwards the registry has
    the new target under its name, in the place of a target that was
    registered under this name before, and the other names are as they
    were. *)
Theorem addTarget_overwrites (self : TargetManager) (target : Target) :
  exists self',
    addTarget self target = Returned self'
    /\ _allTargets self' !! name target = Some target
    /\ forall n, n ≠ name target -> _allTargets self' !! n = _allTargets self !! n.
Proof.
  eexists. split; [reflexivity|]. simpl. split.
  - apply lookup_insert_eq.
  - intros n Hn. by apply lookup_insert_ne.
Qed.

Lemma find_variant (a : CrossCompileTarget) (derived : list Target) :
  (exists tgt, find (fun tgt => bool_decide (target_arch tgt = Some a)) derived = Some tgt
               /\ tgt ∈ derived /\ target_arch tgt = Some a)
  \/ (find (fun tgt => bool_decide (target_arch tgt = Some a)) derived = None
      /\ forall tgt, tgt ∈ derived -> target_arch tgt ≠ Some a).
Proof.
  induction derived as [|t derived IH]; simpl.
  - right. split; [done|]. intros tgt Htgt. by apply elem_of_nil in Htgt.
  - case_bool_decide as Ht.
    + left. exists t. split_and!; [done|left|done].
    + destruct IH as [(tgt & Hf & Hin & Ha)|[Hf Hnone]].
      * left. exists tgt. split_and!; [done|by right|done].
      * right. split; [done|]. intros tgt [->|Hin]%elem_of_cons; auto.
Qed.

Lemma lookup_error_names_architecture (a : CrossCompileTarget) :
  contains ("Could not find target for " ++ str_CrossCompileTarget a)
           (str_CrossCompileTarget a) = true.
Proof. by destruct a. Qed.

(** C4, as amended: [get_real_target] looks for the architecture it is
    given, or without one for the architecture that the project class
    answers; it returns a variant of this architecture (the first one in
    [derived_targets]) when there is one, and otherwise raises a
    [LookupError] whose message names the architecture, and nothing else.
    [get_target] on the name of an alias is [get_real_target] on the alias,
    with the [default_architecture] of the project class in the place of an
    architecture that is not given. *)
Theorem alias_resolution (P : ProjectApi) (self : Target) (derived : list Target)
    (cross_target : option CrossCompileTarget) (config : CheriConfig)
    (a : CrossCompileTarget) :
  requested_architecture P self cross_target config = Some a ->
  ((exists tgt, tgt ∈ derived /\ target_arch tgt = Some a) ->
   exists tgt,
     get_real_target P self derived cross_target config = Returned tgt
     /\ tgt ∈ derived /\ target_arch tgt = Some a
     /\ find (fun t => bool_decide (target_arch t = Some a)) derived = Some tgt)
  /\ ((forall tgt, tgt ∈ derived -> target_arch tgt ≠ Some a) ->
      get_real_target P self derived cross_target config
      = Raised (LookupError
                  ("Could not find target for " ++ str_CrossCompileTarget a)%string)
      /\ contains ("Could not find target for " ++ str_CrossCompileTarget a)
                  (str_CrossCompileTarget a) = true)
  /\ (forall mgr derived_targets arch,
        _allTargets mgr !! name self = Some self ->
        cls self = ClsMultiArchTargetAlias ->
        derived_targets self = derived ->
        cross_target = match arch, default_architecture (projectClass self) with
                       | None, Some d => Some d
                       | _, _ => arch
                       end ->
        get_target P mgr derived_targets (name self) arch config
        = get_real_target P self derived cross_target config).
Proof.
  intros Hreq.
  assert (Hrun : get_real_target P self derived cross_target config
                 = match find (fun t => bool_decide (target_arch t = Some a)) derived with
                   | Some tgt => Returned tgt
                   | None => Raised (LookupError
                       ("Could not find target for " ++ str_CrossCompileTarget a)%string)
                   end).
  { unfold get_real_target. unfold requested_architecture in Hreq. by rewrite Hreq. }
  split_and!.
  - intros (t & Ht & Hta).
    destruct (find_variant a derived) as [(tgt & Hf & Hin & Ha)|[_ Hnone]].
    + exists tgt. by rewrite Hrun, Hf.
    + by destruct (Hnone t Ht).
  - intros Hnone.
    destruct (find_variant a derived) as [(tgt & _ & Hin & Ha)|[Hf _]].
    + by destruct (Hnone tgt Hin).
    + rewrite Hrun, Hf. split; [done|]. apply lookup_error_names_architecture.
  - intros mgr derived_targets arch Hreg Hcls <- ->.
    unfold get_target, get_target_raw. by rewrite Hreg, Hcls.
Qed.

(** ** [topologicalSort] *)

Lemma sort_loop_eq (data : Data) :
  sort_loop data =
  if decide (ordered_names data = ∅) then
    ([], if decide (data = ∅) then StopIteration else CyclicDependency data)
  else
    let '(waves, e) := sort_loop (peel data) in
    (sorted String.ltb (elements (ordered_names data)) :: waves, e).
Proof.
  rewrite sort_loop_equation_1. unfold sort_loop_unfold_clause_1.
  by destruct (decide (ordered_names data = ∅)).
Qed.

Lemma dom_peel (data : Data) : dom (peel data) = dom data ∖ ordered_names data.
Proof.
  unfold peel. rewrite dom_fmap_L. apply set_eq. intros k.
  rewrite elem_of_difference, !elem_of_dom. split.
  - intros [v [Hv Hn]%map_lookup_filter_Some]. split; [eauto|].
    intros Hk. apply Hn. unfold ordered_set. by apply elem_of_map_2.
  - intros [[v Hv] Hn]. exists v. apply map_lookup_filter_Some. split; [done|].
    unfold ordered_set. intros (k' & [= <-] & Hk)%elem_of_map. done.
Qed.

Lemma wave_names (data : Data) :
  list_to_set (sorted String.ltb (elements (ordered_names data))) =@{gset string}
  ordered_names data.
Proof.
  apply set_eq. intros k.
  by rewrite elem_of_list_to_set, sorted_perm, elem_of_elements.
Qed.

Lemma ordered_names_subseteq (data : Data) : ordered_names data ⊆ dom data.
Proof.
  intros k Hk. unfold ordered_names in Hk. apply elem_of_dom in Hk as [v Hv].
  apply map_lookup_filter_Some in Hv as [Hv _]. apply elem_of_dom. eauto.
Qed.

Lemma ordered_names_empty (data : Data) :
  ordered_names data = ∅ <-> forall k v, data !! k = Some v -> v ≠ ∅.
Proof.
  unfold ordered_names. rewrite dom_empty_iff_L, map_empty. split.
  - intros H k v Hk ->. specialize (H k).
    apply map_lookup_filter_None in H as [H|H]; [congruence|]. by apply (H ∅).
  - intros H k. apply map_lookup_filter_None. right. intros v Hv. simpl.
    by apply (H k).
Qed.

(** The loop ends, after at most as many waves as [data] has keys; it ends
    with every key in a wave, or with the assertion failing on the entries
    that are in no wave, none of which has an empty set. *)
Lemma sort_loop_spec (data : Data) :
  exists waves e,
    sort_loop data = (waves, e)
    /\ length waves <= size data
    /\ match e with
       | StopIteration => emitted waves = dom data
       | CyclicDependency rest =>
           rest ≠ ∅
           /\ dom rest = dom data ∖ emitted waves
           /\ forall k v, rest !! k = Some v -> v ≠ ∅
       | SortRaised _ => False
       end.
Proof.
  induction (Nat.lt_wf_0_projected (fun d : Data => size d) data) as [data _ IH].
  rewrite sort_loop_eq. destruct (decide (ordered_names data = ∅)) as [Hemp|Hne].
  - eexists _, _. split; [reflexivity|]. split; [simpl; lia|].
    destruct (decide (data = ∅)) as [->|Hd].
    + unfold emitted. simpl. by rewrite dom_empty_L.
    + split_and!; [done| |by apply ordered_names_empty].
      unfold emitted. simpl. set_solver.
  - destruct (IH (peel data) (peel_size data Hne)) as (waves & e & Hrun & Hlen & He).
    rewrite Hrun. eexists _, _. split; [reflexivity|].
    pose proof (peel_size data Hne). split; [simpl; lia|].
    assert (Hem : emitted (sorted String.ltb (elements (ordered_names data)) :: waves)
                  = ordered_names data ∪ emitted waves).
    { unfold emitted. simpl. by rewrite list_to_set_app_L, wave_names. }
    pose proof (ordered_names_subseteq data) as Hsub.
    rewrite Hem. destruct e as [|rest|]; [| |done].
    + rewrite He, dom_peel. apply set_eq. intros k.
      rewrite elem_of_union, elem_of_difference.
      destruct (decide (k ∈ ordered_names data)); set_solver.
    + destruct He as (Hrest & Hdom & Hall). split_and!; [done| |done].
      rewrite Hdom, dom_peel. set_solver.
Qed.


(** *** The dictionary [data] of targets *)

Lemma dependency_set_empty (P : ProjectApi) (t : Target) :
  dependency_set P t = ∅ <-> get_dependencies P t None = [].
Proof.
  unfold dependency_set. destruct (get_dependencies P t None) as [|x l]; [done|].
  split; [|done]. simpl. intros H. set_solver.
Qed.

Lemma dependency_set_targets (P : ProjectApi) (t : Target) (o : PyObj) :
  o ∈ dependency_set P t -> exists d, o = PyTarget d.
Proof.
  unfold dependency_set. rewrite elem_of_list_to_set, list_elem_of_fmap.
  intros (d & -> & _). eauto.
Qed.

Section InitialData.
Context (P : ProjectApi).

Lemma initial_data_snoc (l : list Target) (x : Target) :
  initial_data P (l ++ [x]) = <[name x := dependency_set P x]> (initial_data P l).
Proof. unfold initial_data. by rewrite fold_left_app. Qed.

Lemma initial_data_lookup (l : list Target) (t : Target) :
  (forall t t', t ∈ l -> t' ∈ l -> name t = name t' -> projectClass t = projectClass t') ->
  t ∈ l ->
  initial_data P l !! name t = Some (dependency_set P t).
Proof.
  induction l as [|x l IH] using rev_ind; intros Hsame Ht.
  - by apply elem_of_nil in Ht.
  - rewrite initial_data_snoc.
    destruct (decide (name x = name t)) as [Hn|Hn].
    + rewrite Hn, lookup_insert_eq. f_equal.
      unfold dependency_set, get_dependencies.
      rewrite (Hsame x t); [done| |done|done]. apply elem_of_app. right. left.
    + rewrite lookup_insert_ne by done.
      apply elem_of_app in Ht as [Ht|Ht].
      * apply IH; [|done]. intros t1 t2 H1 H2. apply Hsame; apply elem_of_app; by left.
      * apply list_elem_of_singleton in Ht as ->. done.
Qed.

Lemma initial_data_values (l : list Target) k v :
  initial_data P l !! k = Some v -> exists t, t ∈ l /\ name t = k /\ v = dependency_set P t.
Proof.
  induction l as [|x l IH] using rev_ind.
  - unfold initial_data. simpl. by rewrite lookup_empty.
  - rewrite initial_data_snoc. destruct (decide (name x = k)) as [Hn|Hn].
    + rewrite Hn, lookup_insert_eq. intros [= <-]. exists x.
      split_and!; [|done|done]. apply elem_of_app. right. left.
    + rewrite lookup_insert_ne by done. intros (t & Ht & Hk & Hv)%IH.
      exists t. split_and!; [|done|done]. apply elem_of_app. by left.
Qed.

Lemma possiblyMissingDependencies_elem (l : list Target) dep :
  dep ∈ possiblyMissingDependencies P l ->
  exists t, t ∈ l /\ dep ∈ allDependencyNames P (projectClass t) None.
Proof.
  unfold possiblyMissingDependencies.
  induction l as [|x l IH] using rev_ind; simpl.
  - intros H. by apply not_elem_of_empty in H.
  - rewrite fold_left_app. simpl. rewrite elem_of_union, elem_of_list_to_set.
    intros [(t & Ht & Hd)%IH|Hd].
    + exists t. split; [|done]. apply elem_of_app. by left.
    + exists x. split; [|done]. apply elem_of_app. right. left.
Qed.
End InitialData.

(** On a dictionary whose sets hold targets only, taking the names of a wave
    out of the sets changes nothing: what is left after the first wave is
    left for good. *)
Lemma peel_targets_only (data : Data) :
  (forall k v o, data !! k = Some v -> o ∈ v -> exists d, o = PyTarget d) ->
  peel data = unresolved data.
Proof.
  intros Hty. apply map_eq. intros k. unfold peel, unresolved.
  rewrite lookup_fmap.
  destruct (data !! k) as [v|] eqn:Hk.
  - destruct (decide (v = ∅)) as [->|Hv].
    + rewrite (proj2 (map_lookup_filter_None _ _ _)), (proj2 (map_lookup_filter_None _ _ _));
        [done| |].
      * right. intros v' Hv'. simpl. congruence.
      * right. intros v' Hv' Hn. simpl in *. apply Hn. unfold ordered_set.
        apply elem_of_map_2. unfold ordered_names. apply elem_of_dom. exists v'.
        apply map_lookup_filter_Some. split; [done|]. simpl. congruence.
    + rewrite (map_lookup_filter_Some_2 _ _ k v), (map_lookup_filter_Some_2 _ _ k v);
        [|done|done|done|].
      * simpl. f_equal. apply set_eq. intros o. rewrite elem_of_difference.
        split; [tauto|]. intros Ho. split; [done|].
        destruct (Hty k v o Hk Ho) as [d ->]. unfold ordered_set.
        intros (? & [=] & _)%elem_of_map.
      * simpl. unfold ordered_set. intros (k' & [= <-] & Hk')%elem_of_map.
        unfold ordered_names in Hk'. apply elem_of_dom in Hk' as [v' Hv'].
        apply map_lookup_filter_Some in Hv' as [Hv' He]. simpl in He. congruence.
  - rewrite (proj2 (map_lookup_filter_None _ _ _)), (proj2 (map_lookup_filter_None _ _ _));
      [done|by left|by left].
Qed.

Lemma ordered_names_unresolved (data : Data) : ordered_names (unresolved data) = ∅.
Proof.
  apply ordered_names_empty. intros k v Hv.
  apply map_lookup_filter_Some in Hv as [_ Hv]. done.
Qed.

Lemma sort_loop_targets_only (data : Data) :
  (forall k v o, data !! k = Some v -> o ∈ v -> exists d, o = PyTarget d) ->
  unresolved data ≠ ∅ ->
  sort_loop data
  = ((if decide (ordered_names data = ∅) then []
      else [sorted String.ltb (elements (ordered_names data))]),
     CyclicDependency (unresolved data)).
Proof.
  intros Hty Hne. rewrite sort_loop_eq.
  destruct (decide (ordered_names data = ∅)) as [Hemp|Hord].
  - assert (unresolved data = data) as Hall.
    { unfold unresolved. apply map_filter_id. intros k v Hv. simpl.
      by apply (proj1 (ordered_names_empty data) Hemp k v). }
    rewrite Hall in *. by destruct (decide (data = ∅)).
  - rewrite (peel_targets_only data Hty), sort_loop_eq.
    rewrite decide_True by apply ordered_names_unresolved.
    by rewrite decide_False.
Qed.


(** ** The claims on the small catalogs *)

Example plan_one_edge :
  get_all_targets one_edge [simple_target "b"; simple_target "x"; simple_target "a"] no_flags
  = [simple_target "b"; simple_target "x"; simple_target "a"].
Proof. vm_compute. reflexivity. Qed.

(** C1, at the request [b x a] without [--include-dependencies], where [b]
    depends on [a] and [x] is on its own: the plan is [b x a], which has
    [b] before its dependency [a], so the plan is not in dependency
    order. *)
Lemma plan_not_in_dependency_order :
  ~ in_dependency_order one_edge
      (get_all_targets one_edge
         [simple_target "b"; simple_target "x"; simple_target "a"] no_flags).
Proof.
  rewrite plan_one_edge. intros H.
  specialize (H (simple_target "a") (simple_target "b") 2 0 eq_refl eq_refl).
  assert (2 < 0); [|lia]. apply H. vm_compute. left.
Qed.



Example plan_sdk_chain :
  get_all_targets sdk_chain [simple_target "t"] with_dependencies_skip_sdk
  = [simple_target "d2"; simple_target "t"].
Proof. vm_compute. reflexivity. Qed.

(** C2 fails: [d2] is in the plan. *)
Lemma sdk_chain_not_excluded :
  ~ sdk_chain_excluded sdk_chain with_dependencies_skip_sdk
      (simple_target "t") (sdk_target "d1") (simple_target "d2").
Proof.
  intros H. destruct H as [_ H]; try reflexivity; try (vm_compute; left).
  apply H. rewrite plan_sdk_chain. left.
Qed.

(** C3 fails: a second target of the name [libcxx] is registered without an
    error, in the place of the alias. *)
Lemma duplicate_not_rejected :
  ~ rejects_duplicate libcxx_registry (simple_target "libcxx").
Proof.
  intros H. destruct H as [e He]; [|done].
  exists libcxx. reflexivity.
Qed.

Example duplicate_replaces :
  exists self',
    addTarget libcxx_registry (simple_target "libcxx") = Returned self'
    /\ get_target_raw libcxx_registry "libcxx" = Returned libcxx
    /\ get_target_raw self' "libcxx" = Returned (simple_target "libcxx").
Proof. eexists. split_and!; reflexivity. Qed.

Example libcxx_resolution :
  get_target no_dependencies libcxx_registry libcxx_variants "libcxx" None no_flags
  = Returned libcxx_native
  /\ get_target no_dependencies libcxx_registry libcxx_variants "libcxx" (Some CHERI) no_flags
     = Returned libcxx_cheri
  /\ get_target no_dependencies libcxx_registry libcxx_variants "libcxx" (Some MIPS) no_flags
     = Raised (LookupError "Could not find target for CrossCompileTarget.MIPS").
Proof. split_and!; reflexivity. Qed.

(** C4 fails: the message of the error does not name the alias. *)
Lemma lookup_error_without_alias_name :
  ~ lookup_error_names_both no_dependencies libcxx [libcxx_native; libcxx_cheri]
      (Some MIPS) no_flags.
Proof.
  intros H. destruct (H MIPS) as (msg & Hmsg & _ & Hname); [done| |].
  - intros tgt Htgt. repeat (apply elem_of_cons in Htgt as [->|Htgt]); try done.
    by apply elem_of_nil in Htgt.
  - vm_compute in Hmsg. injection Hmsg as <-. vm_compute in Hname. done.
Qed.

(** C5 fails: two calls before the target is executed check twice. *)
Lemma checked_twice :
  ~ checked_once no_dependencies (simple_target "llvm") no_flags fresh.
Proof. intros H. specialize (H 2). vm_compute in H. lia. Qed.

(** The cycle [A -> B -> C -> A]: no wave, and all three are reported. *)
Example cycle_reported :
  let r := topologicalSort cycle empty_registry
             [simple_target "A"; simple_target "B"; simple_target "C"] in
  r.1 = [] /\ is_cyclic r.2 = true /\ reported_names r.2 = ["A"; "B"; "C"].
Proof. vm_compute. auto. Qed.

(** Without a cycle: [b] depends on [a]; [a] is yielded and [b] is
    reported, with the target [a] still in its set. *)
Example acyclic_reported :
  let r := topologicalSort one_edge empty_registry
             [simple_target "a"; simple_target "b"] in
  r.1 = [["a"]] /\ is_cyclic r.2 = true
  /\ reported r.2 = [("b", [PyTarget (simple_target "a")])].
Proof. vm_compute. auto. Qed.

(** ** The theorems at concrete inputs *)

Lemma plan_in_dependency_order_witness :
  strict_weak_on (__lt__ one_edge)
    (chosen_targets one_edge no_flags [simple_target "b"; simple_target "a"]) = true
  /\ in_dependency_order one_edge
       (get_all_targets one_edge [simple_target "b"; simple_target "a"] no_flags).
Proof.
  split; [vm_compute; reflexivity|].
  apply (plan_in_dependency_order one_edge [simple_target "b"; simple_target "a"] no_flags).
  vm_compute. reflexivity.
Defined.


Lemma skip_sdk_expansion_witness :
  skipSdk with_dependencies_skip_sdk = true
  /\ (simple_target "d2"
        ∈ get_all_targets sdk_chain [simple_target "t"] with_dependencies_skip_sdk
      <-> simple_target "d2" = simple_target "t"
          \/ (simple_target "d2"
                ∈ deps_to_add sdk_chain with_dependencies_skip_sdk (simple_target "t")
              /\ is_sdk_target (projectClass (simple_target "d2")) = false)).
Proof.
  split; [reflexivity|].
  apply (skip_sdk_expansion sdk_chain with_dependencies_skip_sdk
           (simple_target "t") (simple_target "d2")).
  reflexivity.
Defined.

Lemma alias_resolution_witness :
  requested_architecture no_dependencies libcxx None no_flags = Some NATIVE
  /\ exists tgt,
       get_real_target no_dependencies libcxx [libcxx_native; libcxx_cheri] None no_flags
       = Returned tgt
       /\ tgt ∈ [libcxx_native; libcxx_cheri] /\ target_arch tgt = Some NATIVE
       /\ find (fun t => bool_decide (target_arch t = Some NATIVE))
               [libcxx_native; libcxx_cheri] = Some tgt.
Proof.
  split; [reflexivity|].
  apply (alias_resolution no_dependencies libcxx [libcxx_native; libcxx_cheri]
           None no_flags NATIVE); [reflexivity|].
  exists libcxx_native. split; [left|reflexivity].
Defined.

Lemma checkSystemDeps_until_executed_witness :
  _completed executed.1 = true
  /\ _completed fresh.1 = false
  /\ can_have_project (simple_target "llvm") fresh
  /\ checkSystemDeps no_dependencies (simple_target "llvm") no_flags executed
     = (Returned (), executed)
  /\ count_events is_checked
       (log (invoke_all no_dependencies (simple_target "llvm") no_flags
               (replicate 3 CheckSystemDeps) fresh).2)
     = count_events is_checked (log fresh.2) + 3.
Proof.
  assert (Hcan : can_have_project (simple_target "llvm") fresh).
  { right. split_and!; reflexivity. }
  split_and!; [reflexivity|reflexivity|exact Hcan| |];
    apply (checkSystemDeps_until_executed no_dependencies (simple_target "llvm") no_flags
             executed fresh 3); (reflexivity || exact Hcan).
Defined.

Lemma execute_once_witness :
  _completed checked_llvm.1 = false
  /\ execute no_dependencies (simple_target "llvm") no_flags checked_llvm
     = (Returned (), built_llvm)
  /\ count_events is_processed (log built_llvm.2)
     = S (count_events is_processed (log checked_llvm.2))
  /\ _completed built_llvm.1 = true.
Proof.
  split_and!; [reflexivity|reflexivity| |];
    apply (execute_once no_dependencies (simple_target "llvm") no_flags
             checked_llvm built_llvm);
    reflexivity.
Defined.

Lemma get_or_create_project_idempotent_witness :
  get_or_create_project (simple_target "llvm") None no_flags fresh
  = (Returned (mkProject 0 (simple_class "llvm") no_flags), created_llvm)
  /\ get_or_create_project (simple_target "llvm") (Some CHERI) no_flags created_llvm
     = (Returned (mkProject 0 (simple_class "llvm") no_flags), created_llvm).
Proof.
  split; [reflexivity|].
  apply (get_or_create_project_idempotent (simple_target "llvm") None no_flags
           fresh created_llvm (mkProject 0 (simple_class "llvm") no_flags)).
  reflexivity.
Defined.



(** * Further properties of the code *)

(** ** The life cycle: errors, [run_tests] and [reset] *)

Section LifeCycleMore.
Context (P : ProjectApi) (self : Target).

Ltac run_method :=
  unfold checkSystemDeps, execute, run_tests, get_or_create_project, create_project,
    _create_project, call, emit, assert_, instantiate, raise, put_state, reset,
    mbind, M_bind, get_state, get_world, mret, M_ret; simpl.

Lemma execute_without_project config s w :
  _completed s = false -> __project s = None ->
  execute P self config (s, w)
  = (Raised (AssertionError "Should have been initialized in checkSystemDeps()"), (s, w)).
Proof. intros Hc Hp. run_method. by rewrite Hc, Hp. Qed.

Lemma checkSystemDeps_returns config σ σ1 :
  _completed σ.1 = false ->
  checkSystemDeps P self config σ = (Returned (), σ1) ->
  exists p, __project σ1.1 = Some p /\ _completed σ1.1 = false.
Proof.
  destruct σ as [s w]. simpl. intros Hc.
  unfold checkSystemDeps, mbind, M_bind, get_state. simpl. rewrite Hc.
  destruct (get_or_create_project self None config (s, w)) as [[p|e] [s' w']] eqn:Hrun;
    [|done].
  pose proof (get_or_create_project_returns self None config (s, w) p (s', w') Hrun) as Hp.
  assert (Hc' : _completed s' = false).
  { revert Hrun. run_method.
    destruct (__project s) as [q|] eqn:Hq; simpl.
    - rewrite Hq. intros [= <- <- <-]. done.
    - destruct (_creating_project s); simpl; [done|].
      destruct (instantiating_targets_should_warn w); simpl; [done|].
      destruct (cls self); simpl;
        try destruct (is_cross_compile_class (projectClass self)); simpl;
        try done; by intros [= <- <- <-]. }
  unfold call, emit, mbind, M_bind, mret, M_ret, raise. simpl.
  destruct (checkSystemDependencies P p); [done|]. intros [= <-]. eauto.
Qed.

Lemma execute_with_project config s w p :
  _completed s = false -> __project s = Some p ->
  match process P p with
  | None => exists σ2, execute P self config (s, w) = (Returned (), σ2)
                       /\ _completed σ2.1 = true
  | Some e => exists σ2, execute P self config (s, w) = (Raised e, σ2)
                         /\ σ2.1 = s
  end.
Proof.
  intros Hc Hp. run_method. rewrite Hc, Hp.
  destruct (process P p); simpl; eexists; split; reflexivity.
Qed.
End LifeCycleMore.

(** X1: [checkSystemDeps] prepares [execute].  On a target that has not been
    executed and has no project instance, [execute] raises the assertion
    error and runs nothing; after a call of [checkSystemDeps] that returned,
    [execute] never raises this assertion: it returns with the target
    completed, or it raises what [project.process()] raised and leaves the
    target as it was. *)
Theorem checkSystemDeps_prepares_execute (P : ProjectApi) (self : Target)
    (config : CheriConfig) (σ σ1 : TargetState * World) :
  _completed σ.1 = false ->
  checkSystemDeps P self config σ = (Returned (), σ1) ->
  (__project σ.1 = None ->
   execute P self config σ
   = (Raised (AssertionError "Should have been initialized in checkSystemDeps()"), σ))
  /\ exists p,
       __project σ1.1 = Some p
       /\ match process P p with
          | None => exists σ2, execute P self config σ1 = (Returned (), σ2)
                               /\ _completed σ2.1 = true
          | Some e => exists σ2, execute P self config σ1 = (Raised e, σ2)
                                 /\ σ2.1 = σ1.1
          end.
Proof.
  intros Hc Hrun. split.
  - intros Hp. destruct σ as [s w]. by apply execute_without_project.
  - destruct (checkSystemDeps_returns P self config σ σ1 Hc Hrun) as (p & Hp & Hc1).
    exists p. split; [done|]. destruct σ1 as [s1 w1].
    by apply execute_with_project.
Qed.

(** X2: while [Target.instantiating_targets_should_warn] is set, a target
    without a project instance cannot get one: [get_or_create_project]
    raises the [RuntimeError], and so do [checkSystemDeps] and [run_tests],
    and none of them changes the target, creates an instance or records
    anything. *)
Theorem no_instance_before_run (P : ProjectApi) (self : Target)
    (arch : option CrossCompileTarget) (config : CheriConfig)
    (σ : TargetState * World) :
  instantiating_targets_should_warn σ.2 = true ->
  __project σ.1 = None -> _creating_project σ.1 = false ->
  get_or_create_project self arch config σ = (Raised (premature self), σ)
  /\ (_completed σ.1 = false ->
      checkSystemDeps P self config σ = (Raised (premature self), σ))
  /\ (_tests_have_run σ.1 = false ->
      run_tests P self config σ = (Raised (premature self), σ)).
Proof.
  destruct σ as [s w]. simpl. intros Hw Hp Hc.
  assert (H : forall arch, get_or_create_project self arch config (s, w)
                           = (Raised (premature self), (s, w))).
  { intros a. unfold get_or_create_project, create_project, assert_, raise,
      mbind, M_bind, get_state, get_world, mret, M_ret. simpl.
    rewrite Hp. simpl. rewrite Hc. simpl. by rewrite Hw. }
  split_and!; [apply H| |].
  - intros Hd. unfold checkSystemDeps, mbind, M_bind, get_state. simpl.
    by rewrite Hd, H.
  - intros Ht. unfold run_tests, mbind, M_bind, get_state. simpl.
    by rewrite Ht, H.
Qed.


Section Instantiation.
Context (P : ProjectApi) (self : Target).

Ltac run_method :=
  unfold checkSystemDeps, execute, run_tests, get_or_create_project, create_project,
    _create_project, call, emit, assert_, instantiate, raise, put_state, reset,
    mbind, M_bind, get_state, get_world, mret, M_ret; simpl.

Ltac count_log :=
  unfold may_instantiate; simpl;
  repeat match goal with H : _ = _ |- _ => rewrite H end; simpl;
  rewrite ?count_events_app; unfold count_events; simpl; try lia.

Lemma invoke_instantiates config m σ :
  let σ' := (invoke P self config m σ).2 in
  count_events is_instantiated (log σ'.2) + may_instantiate σ'
  <= count_events is_instantiated (log σ.2) + may_instantiate σ.
Proof.
  destruct σ as [[p c t g] [f n l]]. destruct m; cbn zeta; unfold invoke; run_method.
  - destruct p, g, f; simpl; try (count_log; fail);
      destruct (cls self); simpl; try destruct (is_cross_compile_class (projectClass self));
      simpl; count_log.
  - destruct c; simpl; [count_log|].
    destruct p as [p|]; simpl.
    { destruct (checkSystemDependencies P p); simpl; count_log. }
    destruct g, f; simpl; try (count_log; fail);
      destruct (cls self); simpl; try destruct (is_cross_compile_class (projectClass self));
      simpl; try (count_log; fail);
      match goal with |- context [checkSystemDependencies P ?q] =>
        destruct (checkSystemDependencies P q) end; simpl; count_log.
  - destruct c; simpl; [count_log|].
    destruct p as [p|]; simpl; [|count_log].
    destruct (process P p); simpl; count_log.
  - destruct t; simpl; [count_log|].
    destruct p as [p|]; simpl.
    { destruct (project_run_tests P p); simpl; count_log. }
    destruct g, f; simpl; try (count_log; fail);
      destruct (cls self); simpl; try destruct (is_cross_compile_class (projectClass self));
      simpl; try (count_log; fail);
      match goal with |- context [project_run_tests P ?q] =>
        destruct (project_run_tests P q) end; simpl; count_log.
Qed.

Lemma invoke_all_instantiates config ms σ :
  count_events is_instantiated (log (invoke_all P self config ms σ).2)
  + may_instantiate (invoke_all P self config ms σ)
  <= count_events is_instantiated (log σ.2) + may_instantiate σ.
Proof.
  revert σ. induction ms as [|m ms IH]; intros σ; simpl; [lia|].
  pose proof (invoke_instantiates config m σ) as H. cbn zeta in H.
  unfold invoke_all in *. specialize (IH (invoke P self config m σ).2). lia.
Qed.
End Instantiation.

(** X4: a target creates its project instance at most once.  Whatever
    methods other than [reset] are called on a target, in whatever order and
    whether or not they raise, the project class is instantiated at most
    once, and not at all when the target has an instance already or
    [_creating_project] is set. *)
Theorem instantiated_at_most_once (P : ProjectApi) (self : Target)
    (config : CheriConfig) (ms : list method) (σ : TargetState * World) :
  count_events is_instantiated (log (invoke_all P self config ms σ).2)
  <= count_events is_instantiated (log σ.2) + may_instantiate σ
  /\ may_instantiate σ <= 1.
Proof.
  split.
  - pose proof (invoke_all_instantiates P self config ms σ). lia.
  - unfold may_instantiate. destruct (__project σ.1); [lia|].
    destruct (_creating_project σ.1); lia.
Qed.

Section TestsAndReset.
Context (P : ProjectApi) (self : Target).

Ltac run_method :=
  unfold checkSystemDeps, execute, run_tests, get_or_create_project, create_project,
    _create_project, call, emit, assert_, instantiate, raise, put_state, reset,
    mbind, M_bind, get_state, get_world, mret, M_ret; simpl.

Lemma run_tests_done config s w :
  _tests_have_run s = true ->
  run_tests P self config (s, w)
  = (Returned (),
     (s, mkWorld (instantiating_targets_should_warn w) (instances_created w)
                 (log w ++ [tests_already_run self]))).
Proof. intros Hc. run_method. by rewrite Hc. Qed.

Lemma run_tests_first config σ σ1 :
  _tests_have_run σ.1 = false ->
  run_tests P self config σ = (Returned (), σ1) ->
  _tests_have_run σ1.1 = true
  /\ _completed σ1.1 = _completed σ.1
  /\ is_Some (__project σ1.1)
  /\ count_events is_tested (log σ1.2) = S (count_events is_tested (log σ.2))
  /\ count_events is_processed (log σ1.2) = count_events is_processed (log σ.2).
Proof.
  destruct σ as [[p c t g] [f n l]]. simpl. intros ->. run_method.
  destruct p as [p|]; simpl.
  { destruct (project_run_tests P p); simpl; [done|]. intros [= <-]. simpl.
    rewrite !count_events_app. unfold count_events. simpl. split_and!; eauto with lia. }
  destruct g, f; simpl; try done;
    destruct (cls self); simpl; try destruct (is_cross_compile_class (projectClass self));
    simpl; try done;
    match goal with |- context [project_run_tests P ?q] =>
      destruct (project_run_tests P q) end; simpl; try done;
    intros [= <-]; simpl; rewrite !count_events_app; unfold count_events; simpl;
    split_and!; eauto with lia.
Qed.

Lemma run_tests_again config n s w :
  _tests_have_run s = true ->
  let σn := invoke_all P self config (replicate n RunTests) (s, w) in
  σn.1 = s /\ log σn.2 = log w ++ replicate n (tests_already_run self).
Proof.
  intros Hc. revert w. induction n as [|n IH]; intros w; simpl.
  - by rewrite app_nil_r.
  - rewrite run_tests_done by done. simpl.
    destruct (IH (mkWorld (instantiating_targets_should_warn w) (instances_created w)
                          (log w ++ [tests_already_run self]))) as [H1 H2].
    unfold invoke_all in *. split; [done|]. rewrite H2. simpl.
    by rewrite <- app_assoc.
Qed.

Lemma execute_keeps_tests_flag config σ :
  _tests_have_run (execute P self config σ).2.1 = _tests_have_run σ.1.
Proof.
  destruct σ as [[p c t g] [f n l]]. run_method.
  destruct c; simpl; [done|]. destruct p as [p|]; simpl; [|done].
  by destruct (process P p).
Qed.
End TestsAndReset.

(** X5: [run_tests] runs the tests of a target once, on its own flag.  A
    call that returns on a target whose tests have not run has called
    [project.run_tests()] once, has created the project instance if there
    was none, and has built nothing; it sets [_tests_have_run] and leaves
    [_completed] as it was, as [execute] leaves [_tests_have_run].  Every
    later call only prints the warning. *)
Theorem run_tests_once (P : ProjectApi) (self : Target) (config : CheriConfig)
    (σ σ1 : TargetState * World) :
  _tests_have_run σ.1 = false ->
  run_tests P self config σ = (Returned (), σ1) ->
  _tests_have_run σ1.1 = true
  /\ _completed σ1.1 = _completed σ.1
  /\ is_Some (__project σ1.1)
  /\ count_events is_tested (log σ1.2) = S (count_events is_tested (log σ.2))
  /\ count_events is_processed (log σ1.2) = count_events is_processed (log σ.2)
  /\ _tests_have_run (execute P self config σ).2.1 = false
  /\ forall n,
       let σn := invoke_all P self config (replicate n RunTests) σ1 in
       σn.1 = σ1.1 /\ log σn.2 = log σ1.2 ++ replicate n (tests_already_run self).
Proof.
  intros Ht Hrun.
  destruct (run_tests_first P self config σ σ1 Ht Hrun) as (H1 & H2 & H3 & H4 & H5).
  split_and!; try done.
  - by rewrite execute_keeps_tests_flag.
  - intros n. destruct σ1 as [s1 w1]. by apply run_tests_again.
Qed.

(** X6: [reset] makes a target forget its project instance.  After [reset]
    the attributes are those of a new target and nothing else has changed;
    the next [get_or_create_project] that returns has created a new
    instance, which is not the one the target had before. *)
Theorem reset_forgets_project (self : Target) (arch : option CrossCompileTarget)
    (config : CheriConfig) (s : TargetState) (w : World) (p q : Project)
    (σ' : TargetState * World) :
  __project s = Some p -> instance_id p < instances_created w ->
  get_or_create_project self arch config (reset (s, w)).2 = (Returned q, σ') ->
  reset (s, w) = (Returned (), (init_state, w))
  /\ instance_id q = instances_created w
  /\ q ≠ p
  /\ log σ'.2 = log w ++ [Instantiated q].
Proof.
  intros Hp Hid Hrun. split; [done|].
  change (reset (s, w)).2 with (init_state, w) in Hrun.
  destruct (get_or_create_project_creates self arch config init_state w q σ' eq_refl Hrun)
    as (-> & Hlog & _).
  split_and!; [done| |done]. intros <-. simpl in Hid. lia.
Qed.

Lemma apply_op_ok (P : ProjectApi) (self : Target) (config : CheriConfig)
    (o : op) (σ : TargetState * World) :
  state_ok σ.1 -> state_ok (apply_op P self config o σ).1.
Proof.
  destruct σ as [[p c t g] [f n l]]. unfold state_ok. simpl. intros [H1 H2].
  assert (Hp : forall q : Project, is_Some (Some q)) by (intros q; by exists q).
  assert (Hn : is_Some (@None Project) -> forall b : bool, b = true)
    by (by intros [? ?]).
  destruct o as [m|]; simpl; [|split; [done|by intros [? ?]]].
  destruct m; unfold invoke, checkSystemDeps, execute, run_tests, get_or_create_project,
    create_project, _create_project, call, emit, assert_, instantiate, raise, put_state,
    mbind, M_bind, get_state, get_world, mret, M_ret; simpl.
  - destruct p, g, f; simpl; try (split; auto; fail);
      destruct (cls self); simpl; try destruct (is_cross_compile_class (projectClass self));
      simpl; split; auto.
  - destruct c; simpl; [split; auto|].
    destruct p as [p|]; simpl.
    { destruct (checkSystemDependencies P p); simpl; split; auto. }
    destruct g, f; simpl; try (split; auto; fail);
      destruct (cls self); simpl; try destruct (is_cross_compile_class (projectClass self));
      simpl; try (split; auto; fail);
      match goal with |- context [checkSystemDependencies P ?q] =>
        destruct (checkSystemDependencies P q) end; simpl; split; auto.
  - destruct c; simpl; [split; auto|].
    destruct p as [p|]; simpl; [|split; auto].
    destruct (process P p); simpl; split; auto.
  - destruct t; simpl; [split; auto|].
    destruct p as [p|]; simpl.
    { destruct (project_run_tests P p); simpl; split; auto. }
    destruct g, f; simpl; try (split; auto; fail);
      destruct (cls self); simpl; try destruct (is_cross_compile_class (projectClass self));
      simpl; try (split; auto; fail);
      match goal with |- context [project_run_tests P ?q] =>
        destruct (project_run_tests P q) end; simpl; split; auto.
Qed.

(** X7: an executed target has its project instance.  From the attributes
    that [__init__] sets, whatever methods are called ([reset] among them, and
    whether or not a call raises), a target with [_completed] set has a
    project instance, and a target with a project instance has
    [_creating_project] set. *)
Theorem completed_has_project (P : ProjectApi) (self : Target)
    (config : CheriConfig) (os : list op) (w : World) :
  state_ok (apply_ops P self config os (init_state, w)).1.
Proof.
  assert (H : forall σ, state_ok σ.1 -> state_ok (apply_ops P self config os σ).1).
  { induction os as [|o os IH]; intros σ Hok; simpl; [done|].
    apply IH. by apply apply_op_ok. }
  apply H. split; simpl; [done|by intros [? ?]].
Qed.

(** ** The ordering and the expansion *)

Lemma lt_iff (P : ProjectApi) (self other : Target) :
  __lt__ P self other = true
  <-> self ∈ _cached_dependencies P (projectClass other)
      \/ ((other ∉ _cached_dependencies P (projectClass self))
          /\ name_class self < name_class other).
Proof.
  destruct (decide (self ∈ _cached_dependencies P (projectClass other))) as [Hs|Hs].
  { split; [auto|]. intros _. unfold __lt__, target_in. by rewrite bool_decide_eq_true_2. }
  destruct (decide (other ∈ _cached_dependencies P (projectClass self))) as [Ho|Ho].
  { split; [|tauto]. unfold __lt__, target_in.
    rewrite (bool_decide_eq_false_2 _ Hs), (bool_decide_eq_true_2 _ Ho). done. }
  split.
  - intros Hlt. right. split; [done|]. by apply (lt_name_class P).
  - intros [?|[_ Hn]]; [done|]. apply name_before_lt; [done|done|].
    by apply name_before_class.
Qed.

(** X8: what [Target.__lt__] decides.  [self < other] holds exactly when
    [self] is a cached dependency of [other], or [other] is no cached
    dependency of [self] and the name of [self] ranks before the name of
    [other] ("run" last, "disk-image" before it, every other name first). *)
Theorem lt_spec (P : ProjectApi) (self other : Target) :
  __lt__ P self other = true
  <-> self ∈ _cached_dependencies P (projectClass other)
      \/ ((other ∉ _cached_dependencies P (projectClass self))
          /\ name_class self < name_class other).
Proof. apply lt_iff. Qed.

(** X9: the ordering is asymmetric up to dependency cycles.  Two targets are
    each less than the other only when each is a cached dependency of the
    other, and a target is less than itself only when it is a cached
    dependency of itself. *)
Theorem lt_asymmetric (P : ProjectApi) (x y : Target) :
  __lt__ P x y = true -> __lt__ P y x = true ->
  x ∈ _cached_dependencies P (projectClass y)
  /\ y ∈ _cached_dependencies P (projectClass x).
Proof.
  rewrite !lt_iff. intros [Hx|[Hx Hxy]] [Hy|[Hy Hyx]]; try done; lia.
Qed.

Section AlreadySorted.
Context {A : Type} (lt : A -> A -> bool).

Lemma run_ascending_all prev l :
  no_descent lt (prev :: l) = true -> run_ascending lt prev l = length l.
Proof.
  revert prev. induction l as [|x l IH]; intros prev H; [done|].
  cbn [no_descent] in H. apply andb_true_iff in H as [Hx H].
  apply negb_true_iff in Hx. cbn [run_ascending]. rewrite Hx. simpl.
  by rewrite IH.
Qed.

Lemma sorted_no_descent l : no_descent lt l = true -> sorted lt l = l.
Proof.
  intros H. unfold sorted.
  assert (Hrun : count_run lt l = (length l, false)).
  { destruct l as [|x [|y l]]; [done|done|].
    pose proof H as H'. cbn [no_descent] in H'. apply andb_true_iff in H' as [Hx H'].
    apply negb_true_iff in Hx. cbn [count_run]. rewrite Hx.
    by rewrite (run_ascending_all y l H'). }
  rewrite Hrun. by rewrite take_ge, drop_ge by lia.
Qed.
End AlreadySorted.

Lemma OrderedDict_keys_NoDup_id {A} `{EqDecision A} (l : list A) :
  NoDup l -> OrderedDict_keys l = l.
Proof.
  intros Hl. unfold OrderedDict_keys.
  assert (H : forall d, NoDup (d ++ l) ->
            fold_left (fun d x => if decide (x ∈ d) then d else d ++ [x]) l d = d ++ l).
  { clear Hl. induction l as [|x l IH]; intros d Hd; simpl; [by rewrite app_nil_r|].
    apply NoDup_app in Hd as Hd'. destruct Hd' as (_ & Hdis & _).
    rewrite decide_False by (intros Hx; apply (Hdis x Hx); left).
    rewrite IH; [by rewrite <- app_assoc|]. by rewrite <- app_assoc. }
  by apply (H []).
Qed.

(** X10: a list that [list.sort] takes for sorted is planned as it is.  When
    no chosen target is less than the one before it in the list, the plan is
    the list of the chosen targets without the later copies of a target, in
    the order of the request, whatever the dependencies between targets that
    are not neighbours; without copies it is the list itself. *)
Theorem plan_of_ascending_list (P : ProjectApi) (chosen : list Target) :
  no_descent (__lt__ P) chosen = true ->
  sort_in_dependency_order P chosen = OrderedDict_keys chosen
  /\ (NoDup chosen -> sort_in_dependency_order P chosen = chosen).
Proof.
  intros H. unfold sort_in_dependency_order. rewrite (sorted_no_descent _ _ H).
  split; [done|]. apply OrderedDict_keys_NoDup_id.
Qed.

Lemma chosen_targets_elem (P : ProjectApi) (config : CheriConfig)
    (explicit_targets : list Target) (t : Target) :
  t ∈ chosen_targets P config explicit_targets
  <-> t ∈ explicit_targets
      \/ exists e, e ∈ explicit_targets /\ t ∈ deps_to_add P config e
                   /\ skipped config t = false.
Proof.
  induction explicit_targets as [|x l IH]; simpl.
  - rewrite !elem_of_nil. split; [done|]. intros [[]|(e & He & _)].
    by apply elem_of_nil in He.
  - rewrite elem_of_cons, elem_of_app, IH. unfold added_dependencies.
    rewrite list_elem_of_filter, negb_true_iff. fold (skipped config t).
    rewrite !elem_of_cons. split.
    + intros [->|[[Hs Hd]|[Hl|(e & He & Hd & Hs)]]]; [by left; left| |by left; right|].
      * right. exists x. split_and!; [left|done|done]. 
      * right. exists e. split_and!; [by apply elem_of_cons; right|done|done].
    + intros [[->|Hl]|(e & He & Hd & Hs)]; [by left|by right; right; left|].
      apply elem_of_cons in He as [->|He]; [by right; left|].
      right. right. right. by exists e.
Qed.

(** X11: what a plan holds.  The plan of [get_all_targets] holds every
    requested target and every dependency that the policy adds for a
    requested target and that is not skipped as an SDK target; it holds
    nothing else, and no target twice. *)
Theorem plan_members (P : ProjectApi) (explicit_targets : list Target)
    (config : CheriConfig) (t : Target) :
  (t ∈ get_all_targets P explicit_targets config
   <-> t ∈ explicit_targets
       \/ exists e, e ∈ explicit_targets /\ t ∈ deps_to_add P config e
                    /\ skipped config t = false)
  /\ NoDup (get_all_targets P explicit_targets config).
Proof.
  split; [|apply plan_NoDup].
  unfold get_all_targets. by rewrite plan_elem, chosen_targets_elem.
Qed.

(** X12: the dependencies of a target that must have them built are planned
    without [--include-dependencies]: when [dependenciesMustBeBuilt] is set
    for the project of a requested target, every recursive dependency of
    the target that is not skipped as an SDK target is in the plan. *)
Theorem must_build_dependencies_planned (P : ProjectApi)
    (explicit_targets : list Target) (config : CheriConfig) (t d : Target) :
  t ∈ explicit_targets ->
  dependenciesMustBeBuilt (projectClass t) = true ->
  d ∈ recursive_dependencies P (projectClass t) (Some config) ->
  skipped config d = false ->
  d ∈ get_all_targets P explicit_targets config.
Proof.
  intros Ht Hmust Hd Hs. unfold get_all_targets.
  apply plan_elem, chosen_targets_elem. right. exists t.
  split_and!; [done| |done]. unfold deps_to_add. rewrite Hmust.
  by destruct (includeDependencies config).
Qed.

(** ** The registry and name resolution *)

(** X13: [get_target] hides the aliases.  A name that is not registered
    raises [KeyError]; a name registered for a target that is no alias gives
    this target, whatever the architecture; and a target that [get_target]
    returns is never an alias: it is the registered target, or a variant of
    the registered alias with a [target_arch]. *)
Theorem get_target_hides_aliases (P : ProjectApi) (self : TargetManager)
    (derived_targets : Target -> list Target) (n : string)
    (arch : option CrossCompileTarget) (config : CheriConfig) :
  (_allTargets self !! n = None ->
   get_target P self derived_targets n arch config = Raised (KeyError n))
  /\ (forall t, _allTargets self !! n = Some t -> cls t ≠ ClsMultiArchTargetAlias ->
                get_target P self derived_targets n arch config = Returned t)
  /\ (forall t, get_target P self derived_targets n arch config = Returned t ->
                cls t ≠ ClsMultiArchTargetAlias
                /\ (_allTargets self !! n = Some t
                    \/ exists alias a,
                         _allTargets self !! n = Some alias
                         /\ cls alias = ClsMultiArchTargetAlias
                         /\ t ∈ derived_targets alias
                         /\ target_arch t = Some a)).
Proof.
  unfold get_target, get_target_raw. split_and!.
  - by intros ->.
  - intros t -> Hcls. by destruct (cls t).
  - intros t. destruct (_allTargets self !! n) as [r|] eqn:Hr; [|done].
    destruct (cls r) eqn:Hcls.
    + intros [= <-]. split; [congruence|by left].
    + intros [= <-]. split; [congruence|by left].
    + unfold get_real_target.
      match goal with |- context [match ?c with Some _ => _ | None => Raised (AssertionError _) end] =>
        destruct c as [a|] end; [|done].
      destruct (find _ _) as [tgt|] eqn:Hf; [|done]. intros [= <-].
      apply find_some in Hf as [Hin Ha]. apply bool_decide_eq_true_1 in Ha.
      apply list_elem_of_In in Hin. split.
      * unfold target_arch in Ha. intros Hc. by rewrite Hc in Ha.
      * right. by exists r, a.
Qed.

Lemma register_all_snoc (ts : list Target) (t : Target) (self : TargetManager) :
  _allTargets (register_all (ts ++ [t]) self)
  = <[name t := t]> (_allTargets (register_all ts self)).
Proof. unfold register_all. by rewrite fold_left_app. Qed.

(** X14: the registry finds what was registered last.  After the targets of
    a list have been registered in turn, a name gives the last target of the
    list with this name, and [KeyError] when the list has none; the names of
    the registry are the names of the list. *)
Theorem registry_lookup (ts : list Target) (n : string) :
  get_target_raw (register_all ts new_TargetManager) n
  = match last (filter (fun t => name t = n) ts) with
    | Some t => Returned t
    | None => Raised (KeyError n)
    end
  /\ targetNames (register_all ts new_TargetManager) = list_to_set (name <$> ts).
Proof.
  unfold get_target_raw, targetNames. induction ts as [|t ts [IH1 IH2]] using rev_ind.
  - split; [done|]. simpl. apply dom_empty_L.
  - rewrite register_all_snoc. split.
    + rewrite filter_app. destruct (decide (name t = n)) as [Hn|Hn].
      * rewrite filter_cons_True by done. rewrite filter_nil, last_snoc.
        by rewrite <- Hn, lookup_insert_eq.
      * rewrite filter_cons_False by done. rewrite filter_nil, app_nil_r.
        by rewrite lookup_insert_ne.
    + rewrite dom_insert_L, IH2, fmap_app, list_to_set_app_L. simpl. set_solver.
Qed.

(** ** [topologicalSort]: when it raises and when it succeeds *)

Lemma dom_initial_data (P : ProjectApi) (l : list Target) :
  dom (initial_data P l) = list_to_set (name <$> l).
Proof.
  induction l as [|x l IH] using rev_ind.
  - unfold initial_data. simpl. apply dom_empty_L.
  - rewrite initial_data_snoc, dom_insert_L, IH, fmap_app, list_to_set_app_L.
    simpl. set_solver.
Qed.

Lemma initial_data_None (P : ProjectApi) (l : list Target) (n : string) :
  initial_data P l !! n = None <-> forall t, t ∈ l -> name t ≠ n.
Proof.
  rewrite <- not_elem_of_dom, dom_initial_data, elem_of_list_to_set, list_elem_of_fmap.
  split.
  - intros H t Ht Hn. apply H. by exists t.
  - intros H (t & Hn & Ht). by apply (H t).
Qed.

Lemma possiblyMissingDependencies_spec (P : ProjectApi) (l : list Target) dep :
  dep ∈ possiblyMissingDependencies P l
  <-> exists t, t ∈ l /\ dep ∈ allDependencyNames P (projectClass t) None.
Proof.
  split; [apply possiblyMissingDependencies_elem|].
  unfold possiblyMissingDependencies.
  induction l as [|x l IH] using rev_ind.
  - intros (t & Ht & _). by apply elem_of_nil in Ht.
  - intros (t & Ht & Hd). rewrite fold_left_app. simpl.
    rewrite elem_of_union, elem_of_list_to_set.
    apply elem_of_app in Ht as [Ht|Ht]; [left; apply IH; eauto|].
    apply list_elem_of_singleton in Ht as ->. by right.
Qed.

Lemma add_missing_outcome (P : ProjectApi) (self : TargetManager) (l : list Target) :
  match add_missing self (possiblyMissingDependencies P l) (initial_data P l) with
  | Returned data =>
      data = initial_data P l /\ forall dep, ~ missing_dependency P l dep
  | Raised e =>
      exists dep, missing_dependency P l dep
                  /\ e = match _allTargets self !! dep with
                         | None => KeyError dep
                         | Some _ => AttributeError "dependencies"
                         end
  end.
Proof.
  unfold add_missing.
  destruct (filter _ _) as [|dep rest] eqn:Hf.
  - split; [done|]. intros dep [Hdep Hnone].
    apply possiblyMissingDependencies_spec, elem_of_elements in Hdep.
    apply (proj2 (initial_data_None P l dep)) in Hnone.
    assert (Hin : dep ∈ filter (fun dep => initial_data P l !! dep = None)
                    (elements (possiblyMissingDependencies P l))).
    { by apply list_elem_of_filter. }
    rewrite Hf in Hin. by apply elem_of_nil in Hin.
  - assert (Hin : dep ∈ dep :: rest) by left.
    rewrite <- Hf in Hin. apply list_elem_of_filter in Hin as [Hnone Hdep].
    assert (missing_dependency P l dep).
    { split; [|exact (proj1 (initial_data_None P l dep) Hnone)].
      apply possiblyMissingDependencies_spec. by apply elem_of_elements. }
    destruct (_allTargets self !! dep) eqn:Hreg; exists dep; by rewrite Hreg.
Qed.

(** X15: a dependency outside the list makes [topologicalSort] raise.  The
    generator raises before the first wave exactly when the dependency
    names of the targets hold a name that is the name of no target of the
    list: a [KeyError] when the name is not registered, and an
    [AttributeError] when it is, since no target has an attribute
    [dependencies]. *)
Theorem topologicalSort_raises (P : ProjectApi) (self : TargetManager)
    (targets : list Target) :
  ((exists e, (topologicalSort P self targets).2 = SortRaised e)
   <-> exists dep, missing_dependency P targets dep)
  /\ forall e, (topologicalSort P self targets).2 = SortRaised e ->
       (topologicalSort P self targets).1 = []
       /\ exists dep, missing_dependency P targets dep
            /\ e = match _allTargets self !! dep with
                   | None => KeyError dep
                   | Some _ => AttributeError "dependencies"
                   end.
Proof.
  unfold topologicalSort.
  pose proof (add_missing_outcome P self targets) as Hadd.
  destruct (add_missing _ _ _) as [data|e0].
  - destruct Hadd as [-> Hnone].
    destruct (sort_loop_spec (initial_data P targets)) as (waves & e & -> & _ & He).
    simpl. split.
    + split; [intros [e' ->]; done|]. intros [dep Hdep]. by destruct (Hnone dep).
    + intros e' ->. done.
  - destruct Hadd as (dep & Hdep & ->). simpl. split.
    + split; eauto.
    + intros e [= <-]. eauto.
Qed.

Lemma sort_loop_no_dependencies (data : Data) :
  (forall k v, data !! k = Some v -> v = ∅) ->
  sort_loop data
  = ((if decide (data = ∅) then []
      else [sorted String.ltb (elements (dom data))]), StopIteration).
Proof.
  intros Hall.
  assert (Hord : ordered_names data = dom data).
  { unfold ordered_names. f_equal. apply map_filter_id. intros k v Hv. simpl. eauto. }
  assert (Hpeel : peel data = ∅).
  { apply map_empty. intros k. unfold peel. rewrite lookup_fmap.
    rewrite (proj2 (map_lookup_filter_None _ _ _)); [done|].
    right. intros v Hv Hn. simpl in *. apply Hn. unfold ordered_set.
    apply elem_of_map_2. rewrite Hord. apply elem_of_dom. eauto. }
  rewrite sort_loop_eq, Hord.
  destruct (decide (dom data = ∅)) as [Hd|Hd].
  - apply dom_empty_iff_L in Hd. by rewrite !decide_True.
  - rewrite Hpeel, sort_loop_eq.
    assert (ordered_names (∅ : Data) = ∅) as ->.
    { apply ordered_names_empty. intros k v. by rewrite lookup_empty. }
    rewrite !decide_True by done.
    rewrite decide_False; [done|]. intros ->. apply Hd. apply dom_empty_L.
Qed.

(** X16: [topologicalSort] succeeds only on targets without dependencies.
    When every dependency name is the name of a target of the list, and
    targets of the list with the same name have the same project class, the
    generator ends without an error exactly when no target of the list has a
    dependency; it has then yielded the names of the targets in one wave
    (and no wave for the empty list). *)
Theorem topologicalSort_succeeds (P : ProjectApi) (self : TargetManager)
    (targets : list Target) :
  (forall dep, ~ missing_dependency P targets dep) ->
  (forall t t', t ∈ targets -> t' ∈ targets ->
                name t = name t' -> projectClass t = projectClass t') ->
  ((topologicalSort P self targets).2 = StopIteration
   <-> forall t, t ∈ targets -> get_dependencies P t None = [])
  /\ ((topologicalSort P self targets).2 = StopIteration ->
      (topologicalSort P self targets).1
      = match targets with
        | [] => []
        | _ => [sorted String.ltb (elements (list_to_set (name <$> targets) : gset string))]
        end).
Proof.
  intros Hnone Hsame. unfold topologicalSort.
  pose proof (add_missing_outcome P self targets) as Hadd.
  destruct (add_missing _ _ _) as [data|e0];
    [|destruct Hadd as (dep & Hdep & _); by destruct (Hnone dep)].
  destruct Hadd as [-> _].
  destruct (decide (unresolved (initial_data P targets) = ∅)) as [Hun|Hun].
  - assert (Hall : forall k v, initial_data P targets !! k = Some v -> v = ∅).
    { intros k v Hv. destruct (decide (v = ∅)) as [|Hne]; [done|].
      assert (unresolved (initial_data P targets) !! k = Some v) as Hk
        by by apply map_lookup_filter_Some.
      by rewrite Hun, lookup_empty in Hk. }
    rewrite (sort_loop_no_dependencies _ Hall). simpl. split.
    + split; [|done]. intros _ t Ht. apply dependency_set_empty.
      apply (Hall (name t)). by apply initial_data_lookup.
    + intros _. destruct targets as [|t ts].
      * by rewrite decide_True.
      * rewrite decide_False, dom_initial_data; [done|].
        intros He. pose proof (initial_data_lookup P (t :: ts) t Hsame) as Ht.
        rewrite He, lookup_empty in Ht. discriminate Ht. left.
  - rewrite sort_loop_targets_only; [|
      intros k v o (t & _ & _ & ->)%initial_data_values; apply dependency_set_targets|done].
    simpl. split; [|done]. split; [done|]. intros Hall. exfalso. apply Hun.
    apply map_empty. intros k. apply map_lookup_filter_None.
    destruct (initial_data P targets !! k) as [v|] eqn:Hk; [|by left].
    right. intros v' [= <-]. simpl. intros Hne. apply Hne.
    apply initial_data_values in Hk as (t & Ht & _ & ->).
    apply dependency_set_empty. by apply Hall.
Qed.

(** *** The order of the names in a wave *)

Lemma string_compare_lt_trans (x y z : string) :
  String.compare x y = Lt -> String.compare y z = Lt -> String.compare x z = Lt.
Proof.
  revert y z. induction x as [|a x IH]; intros [|b y] [|c z]; simpl; try done.
  destruct (Ascii.compare a b) eqn:Hab; try done;
    destruct (Ascii.compare b c) eqn:Hbc; try done.
  - apply Ascii.compare_eq_iff in Hab as ->. rewrite Hbc. apply IH.
  - apply Ascii.compare_eq_iff in Hab as ->. by rewrite Hbc.
  - apply Ascii.compare_eq_iff in Hbc as <-. by rewrite Hab.
  - unfold Ascii.compare in *. intros _ _.
    apply N.compare_lt_iff in Hab, Hbc.
    pose proof (N.lt_trans _ _ _ Hab Hbc) as H.
    apply N.compare_lt_iff in H. by rewrite H.
Qed.

Lemma string_ltb_asym (x y : string) : String.ltb x y = true -> String.ltb y x = false.
Proof.
  unfold String.ltb. rewrite (String.compare_antisym y x).
  by destruct (String.compare x y).
Qed.

Lemma string_ltb_negtrans (x y z : string) :
  String.ltb x y = false -> String.ltb y z = false -> String.ltb x z = false.
Proof.
  unfold String.ltb. intros Hxy Hyz.
  destruct (String.compare x y) eqn:Hc1; [|done|].
  { apply String.compare_eq_iff in Hc1 as ->. done. }
  destruct (String.compare y z) eqn:Hc2; [|done|].
  { apply String.compare_eq_iff in Hc2 as <-. by rewrite Hc1. }
  assert (H1 : String.compare y x = Lt)
    by (rewrite String.compare_antisym, Hc1; done).
  assert (H2 : String.compare z y = Lt)
    by (rewrite String.compare_antisym, Hc2; done).
  pose proof (string_compare_lt_trans z y x H2 H1) as H.
  rewrite String.compare_antisym, H. done.
Qed.

Lemma string_ltb_total (x y : string) :
  String.ltb x y = false -> String.ltb y x = false -> x = y.
Proof.
  unfold String.ltb. rewrite (String.compare_antisym y x).
  destruct (String.compare x y) eqn:Hc; [|done|done].
  intros _ _. by apply String.compare_eq_iff.
Qed.

(** [sorted] on names without copies: in strictly ascending order. *)
Lemma sorted_names_ascending (l : list string) :
  NoDup l -> StronglySorted (fun x y => String.ltb x y = true) (sorted String.ltb l).
Proof.
  intros Hl.
  assert (Hs : StronglySorted (not_after String.ltb) (sorted String.ltb l)).
  { apply (sorted_sorted String.ltb (fun _ => True)).
    - intros x y _ _. apply string_ltb_asym.
    - intros x y z _ _ _. apply string_ltb_negtrans.
    - by apply Forall_forall. }
  assert (Hn : NoDup (sorted String.ltb l)) by by rewrite sorted_perm.
  revert Hs Hn. generalize (sorted String.ltb l). clear.
  induction 1 as [|x l Hs IH Hx]; intros Hn; [constructor|].
  apply NoDup_cons in Hn as [Hnx Hn]. constructor; [by apply IH|].
  rewrite Forall_forall in Hx. apply Forall_forall. intros y Hy.
  specialize (Hx y Hy). unfold not_after in Hx.
  destruct (String.ltb x y) eqn:Hxy; [done|].
  pose proof (string_ltb_total x y Hxy Hx). congruence.
Qed.

Lemma sort_loop_waves (data : Data) :
  emitted (sort_loop data).1 ⊆ dom data
  /\ NoDup (concat (sort_loop data).1)
  /\ Forall (fun wave => wave ≠ []
                         /\ StronglySorted (fun x y => String.ltb x y = true) wave)
            (sort_loop data).1.
Proof.
  induction (Nat.lt_wf_0_projected (fun d : Data => size d) data) as [data _ IH].
  rewrite sort_loop_eq. destruct (decide (ordered_names data = ∅)) as [Hemp|Hne].
  - simpl. split_and!; [unfold emitted; simpl; set_solver|constructor|constructor].
  - destruct (IH (peel data) (peel_size data Hne)) as (Hsub & Hnd & Hall).
    destruct (sort_loop (peel data)) as [waves e]. simpl in *.
    pose proof (wave_names data) as Hw.
    pose proof (ordered_names_subseteq data) as Hord.
    rewrite dom_peel in Hsub. split_and!.
    + unfold emitted in *. simpl. rewrite list_to_set_app_L, Hw. set_solver.
    + apply NoDup_app. split_and!; [|
        |done].
      * rewrite sorted_perm. apply NoDup_elements.
      * intros x Hx Hx'. rewrite sorted_perm, elem_of_elements in Hx.
        assert (x ∈ emitted waves) as Hin
          by (unfold emitted; by apply elem_of_list_to_set).
        apply Hsub in Hin. set_solver.
    + constructor; [|done]. split.
      * intros Hnil. apply Hne. rewrite <- Hw, Hnil. done.
      * apply sorted_names_ascending, NoDup_elements.
Qed.

(** X17: the waves of [topologicalSort].  No wave is empty, the names of a
    wave are in strictly ascending order, and no name is in two waves or
    twice in a wave; every name of a wave is the name of a target of the
    list. *)
Theorem topologicalSort_waves (P : ProjectApi) (self : TargetManager)
    (targets : list Target) :
  NoDup (concat (topologicalSort P self targets).1)
  /\ Forall (fun wave => wave ≠ []
                         /\ StronglySorted (fun x y => String.ltb x y = true) wave)
            (topologicalSort P self targets).1
  /\ forall n, n ∈ concat (topologicalSort P self targets).1 ->
               exists t, t ∈ targets /\ name t = n.
Proof.
  unfold topologicalSort.
  pose proof (add_missing_outcome P self targets) as Hadd.
  destruct (add_missing _ _ _) as [data|e0]; simpl.
  - destruct Hadd as [-> _].
    destruct (sort_loop_waves (initial_data P targets)) as (Hsub & Hnd & Hall).
    split_and!; [done|done|]. intros n Hn.
    assert (n ∈ emitted (sort_loop (initial_data P targets)).1) as Hin
      by (unfold emitted; by apply elem_of_list_to_set).
    apply Hsub in Hin. rewrite dom_initial_data in Hin.
    apply elem_of_list_to_set, list_elem_of_fmap in Hin as (t & -> & Ht). eauto.
  - split_and!; [constructor|constructor|]. intros n Hn. by apply elem_of_nil in Hn.
Qed.

(** ** [TargetManager.run] *)

Section Run.
Context (P : ProjectApi) (derived_targets : Target -> list Target).
Context (config : CheriConfig).

Ltac run_method :=
  unfold checkSystemDeps, execute, run_tests, get_or_create_project, create_project,
    _create_project, call, emit, assert_, instantiate, raise, put_state, reset,
    mbind, M_bind, get_state, get_world, mret, M_ret; simpl.

Ltac grows_done :=
  simpl; rewrite <- ?app_assoc;
  first [ by exists []; rewrite app_nil_r | by eexists; split; [reflexivity|] ].

Lemma grows_refl f w : grows f w w.
Proof. exists []. by rewrite app_nil_r. Qed.

Lemma grows_trans f w1 w2 w3 : grows f w1 w2 -> grows f w2 w3 -> grows f w1 w3.
Proof.
  intros (e1 & H1 & F1) (e2 & H2 & F2). exists (e1 ++ e2). split.
  - by rewrite H2, H1, app_assoc.
  - by rewrite forallb_app, F1, F2.
Qed.

(** What one call of [checkSystemDeps] does to the target and to what is
    shared. *)
Lemma checkSystemDeps_step_eq self σ r σ' :
  checkSystemDeps P self config σ = (r, σ') ->
  grows of_check σ.2 σ'.2
  /\ instantiating_targets_should_warn σ'.2 = instantiating_targets_should_warn σ.2
  /\ _completed σ'.1 = _completed σ.1
  /\ (is_Some (__project σ.1) -> is_Some (__project σ'.1))
  /\ (class_accepted self = true -> __project σ'.1 = None ->
      _creating_project σ'.1 = _creating_project σ.1).
Proof.
  destruct σ as [s w]. unfold class_accepted. run_method.
  destruct (_completed s) eqn:Hc; simpl.
  { intros [= <- <-]. simpl. split_and!; auto. grows_done. }
  destruct (__project s) as [q|] eqn:Hq; simpl.
  - rewrite Hq. simpl.
    destruct (checkSystemDependencies P q); simpl; intros [= <- <-]; simpl;
      split_and!; auto; grows_done.
  - destruct (_creating_project s) eqn:Hcr; simpl.
    { intros [= <- <-]. simpl. split_and!; auto; [grows_done|by intros [? [=]]]. }
    destruct (instantiating_targets_should_warn w) eqn:Hw; simpl.
    { intros [= <- <-]. simpl. split_and!; auto; [grows_done|by intros [? [=]]]. }
    destruct (cls self); simpl;
      try destruct (is_cross_compile_class (projectClass self)); simpl;
      try destruct (checkSystemDependencies P _); simpl;
      intros [= <- <-]; simpl;
      split_and!; auto; try grows_done; try done; by intros [? [=]].
Qed.

Lemma checkSystemDeps_step self σ :
  grows of_check σ.2 (checkSystemDeps P self config σ).2.2
  /\ instantiating_targets_should_warn (checkSystemDeps P self config σ).2.2
     = instantiating_targets_should_warn σ.2
  /\ _completed (checkSystemDeps P self config σ).2.1 = _completed σ.1
  /\ (is_Some (__project σ.1)
      -> is_Some (__project (checkSystemDeps P self config σ).2.1))
  /\ (class_accepted self = true
      -> __project (checkSystemDeps P self config σ).2.1 = None
      -> _creating_project (checkSystemDeps P self config σ).2.1
         = _creating_project σ.1).
Proof.
  destruct (checkSystemDeps P self config σ) as [r σ'] eqn:H.
  by apply checkSystemDeps_step_eq in H.
Qed.



Lemma on_object_process {A} self (m : M A) π :
  (on_object self m π).2
  = mkProcess (set_attributes self (m (attributes π self, shared π)).2.1 (attributes π))
              (m (attributes π self, shared π)).2.2.
Proof. unfold on_object. by destruct (m _) as [[a|e] [s w]]. Qed.

Lemma on_object_outcome {A} self (m : M A) π :
  (on_object self m π).1
  = match (m (attributes π self, shared π)).1 with
    | Returned a => Finished a
    | Raised e => Uncaught e
    end.
Proof. unfold on_object. by destruct (m _) as [[a|e] [s w]]. Qed.

(** The variant that [get_real_target] returns is a [MultiArchTarget]: its
    methods are those of [Target]. *)
Lemma receiver_not_alias target tgt :
  receiver P derived_targets config target = Returned tgt ->
  cls tgt <> ClsMultiArchTargetAlias.
Proof.
  unfold receiver, get_real_target.
  destruct (cls target) eqn:Hcls; try (intros [= <-]; by rewrite Hcls).
  destruct (get_crosscompile_target P (projectClass target) config) as [a|]; [|done].
  destruct (find _ _) as [t|] eqn:Hfind; [|done]. intros [= <-].
  apply find_some in Hfind as [_ Harch]. apply bool_decide_eq_true in Harch.
  unfold target_arch in Harch. by destruct (cls t).
Qed.

(** A loop keeps what every pass keeps. *)
Lemma for_each_keeps {A} (I : Process -> Process -> Prop) (body : A -> R unit)
    (l : list A) :
  (forall π, I π π) ->
  (forall π1 π2 π3, I π1 π2 -> I π2 π3 -> I π1 π3) ->
  (forall x π, I π (body x π).2) ->
  forall π, I π (for_each l body π).2.
Proof.
  intros Hrefl Htrans Hbody. induction l as [|x l IH]; intros π; simpl; [apply Hrefl|].
  unfold mbind, R_bind. pose proof (Hbody x π) as Hx.
  destruct (body x π) as [[[]|r|e] π1]; simpl in *; try done.
  eapply Htrans; [exact Hx|apply IH].
Qed.

(** A loop that finished has finished every pass. *)
Lemma for_each_finished {A} (I : Process -> Process -> Prop) (body : A -> R unit)
    (l : list A) :
  (forall π, I π π) ->
  (forall π1 π2 π3, I π1 π2 -> I π2 π3 -> I π1 π3) ->
  (forall x π, I π (body x π).2) ->
  forall π π', for_each l body π = (Finished (), π') ->
  forall x, x ∈ l ->
    exists π1 π2, body x π1 = (Finished (), π2) /\ I π π1 /\ I π2 π'.
Proof.
  intros Hrefl Htrans Hbody. induction l as [|y l IH]; intros π π' Hrun x Hx.
  { by apply elem_of_nil in Hx. }
  simpl in Hrun. unfold mbind, R_bind in Hrun.
  pose proof (Hbody y π) as Hy.
  destruct (body y π) as [[[]|r|e] π1] eqn:Hby; simpl in *; try done.
  apply elem_of_cons in Hx as [->|Hx].
  - exists π, π1. split_and!; [done|apply Hrefl|].
    pose proof (for_each_keeps I body l Hrefl Htrans Hbody π1) as Hk.
    by rewrite Hrun in Hk.
  - destruct (IH π1 π' Hrun x Hx) as (π2 & π3 & Hb & H1 & H2).
    exists π2, π3. split_and!; [done| |done]. by eapply Htrans.
Qed.

Lemma call_method_keeps (I : Process -> Process -> Prop) (meth : Target -> M unit) :
  (forall π, I π π) ->
  (forall tgt π, I π (on_object tgt (meth tgt) π).2) ->
  forall target π, I π (call_method P derived_targets config meth target π).2.
Proof.
  intros Hrefl Hm target π. unfold call_method.
  destruct (receiver _ _ _ _); simpl; [apply Hm|apply Hrefl].
Qed.

Lemma check_all_grows l π :
  grows of_check (shared π) (shared (check_all P derived_targets config l π).2).
Proof.
  unfold check_all.
  apply (for_each_keeps (fun π π' => grows of_check (shared π) (shared π'))).
  - intros ?. apply grows_refl.
  - intros ???. apply grows_trans.
  - intros x π0.
    apply (call_method_keeps (fun π π' => grows of_check (shared π) (shared π'))).
    + intros ?. apply grows_refl.
    + intros tgt π1. rewrite on_object_process. simpl.
      apply (checkSystemDeps_step tgt (_, _)).
Qed.


Lemma get_all_chosen_targets_step self π :
  let r := get_all_chosen_targets P self derived_targets config π in
  attributes r.2 = attributes π
  /\ log (shared r.2) = log (shared π)
  /\ instances_created (shared r.2) = instances_created (shared π)
  /\ match r.1 with
     | Finished plan =>
         instantiating_targets_should_warn (shared r.2) = false
         /\ dependencies_registered P self config
         /\ exists explicit,
              explicitlyChosenTargets P self derived_targets config (targets config)
              = Finished explicit
              /\ plan = get_all_targets P explicit config
     | _ => r.2 = π
     end.
Proof.
  unfold get_all_chosen_targets.
  destruct (decide _) as [Hd|Hd]; simpl; [|done].
  destruct (explicitlyChosenTargets _ _ _ _ _) as [explicit|r|e] eqn:He; simpl; try done.
  split_and!; eauto.
Qed.

Lemma set_attributes_eq self s attrs : set_attributes self s attrs self = s.
Proof. unfold set_attributes. by rewrite decide_True. Qed.

Lemma set_attributes_ne self s attrs t :
  t <> self -> set_attributes self s attrs t = attrs t.
Proof. intros H. unfold set_attributes. by rewrite decide_False. Qed.

Lemma for_each_no_exit {A} (body : A -> R unit) (l : list A) r :
  (forall x π, (body x π).1 <> SystemExit r) ->
  forall π, (for_each l body π).1 <> SystemExit r.
Proof.
  intros Hbody. induction l as [|x l IH]; intros π; simpl; [done|].
  unfold mbind, R_bind. pose proof (Hbody x π) as Hx.
  destruct (body x π) as [[[]|r'|e] π1]; simpl in *; try done; try apply IH.
Qed.

Lemma call_method_no_exit meth target π r :
  (call_method P derived_targets config meth target π).1 <> SystemExit r.
Proof.
  unfold call_method. destruct (receiver _ _ _ _); simpl; [|done].
  rewrite on_object_outcome. by destruct (meth _ _).1.
Qed.

Lemma explicitlyChosenTargets_exit self names r :
  explicitlyChosenTargets P self derived_targets config names = SystemExit r ->
  exists n, r = TargetDoesNotExist n /\ n ∈ names /\ _allTargets self !! n = None.
Proof.
  induction names as [|n names IH]; simpl; [done|].
  destruct (_allTargets self !! n) eqn:Hn.
  - destruct (get_target _ _ _ _ _ _); [|done].
    destruct (explicitlyChosenTargets _ _ _ _ names); try done.
    intros [= <-]. destruct (IH eq_refl) as (m & -> & Hm & Hl).
    exists m. split_and!; [done|by right|done].
  - intros [= <-]. exists n. split_and!; [done|by left|done].
Qed.

Lemma explicitlyChosenTargets_finished self names explicit :
  explicitlyChosenTargets P self derived_targets config names = Finished explicit ->
  Forall2 (fun n t => get_target P self derived_targets n None config = Returned t)
          names explicit.
Proof.
  revert explicit. induction names as [|n names IH]; simpl; intros explicit.
  { intros [= <-]. constructor. }
  destruct (_allTargets self !! n); [|done].
  destruct (get_target _ _ _ _ _ _) eqn:Hg; [|done].
  destruct (explicitlyChosenTargets _ _ _ _ names); try done.
  intros [= <-]. constructor; auto.
Qed.

(** The process during the first loop of [run]. *)
Lemma check_keeps tgt π :
  let π' := (on_object tgt (checkSystemDeps P tgt config) π).2 in
  grows of_check (shared π) (shared π')
  /\ instantiating_targets_should_warn (shared π')
     = instantiating_targets_should_warn (shared π)
  /\ (forall t, _completed (attributes π' t) = _completed (attributes π t))
  /\ (forall t, is_Some (__project (attributes π t))
                -> is_Some (__project (attributes π' t))).
Proof.
  simpl. rewrite on_object_process. simpl.
  destruct (checkSystemDeps_step tgt (attributes π tgt, shared π))
    as (Hg & Hw & Hc & Hp & _). simpl in *.
  split_and!; [done|done| |]; intros t; destruct (decide (t = tgt)) as [->|Hne];
    rewrite ?set_attributes_eq, ?set_attributes_ne by done; auto.
Qed.


Lemma check_all_keeps l π :
  let π' := (check_all P derived_targets config l π).2 in
  instantiating_targets_should_warn (shared π')
  = instantiating_targets_should_warn (shared π)
  /\ (forall t, _completed (attributes π' t) = _completed (attributes π t))
  /\ (forall t, is_Some (__project (attributes π t))
                -> is_Some (__project (attributes π' t))).
Proof.
  unfold check_all.
  apply (for_each_keeps (fun π π' =>
    instantiating_targets_should_warn (shared π')
    = instantiating_targets_should_warn (shared π)
    /\ (forall t, _completed (attributes π' t) = _completed (attributes π t))
    /\ (forall t, is_Some (__project (attributes π t))
                  -> is_Some (__project (attributes π' t))))).
  - done.
  - intros π1 π2 π3 (H1 & H2 & H3) (H4 & H5 & H6). split_and!.
    + by rewrite H4.
    + intros t. by rewrite H5.
    + auto.
  - intros x π0. apply (call_method_keeps (fun π π' =>
      instantiating_targets_should_warn (shared π')
      = instantiating_targets_should_warn (shared π)
      /\ (forall t, _completed (attributes π' t) = _completed (attributes π t))
      /\ (forall t, is_Some (__project (attributes π t))
                    -> is_Some (__project (attributes π' t))))); [done|].
    intros tgt π1. by destruct (check_keeps tgt π1) as (_ & ? & ? & ?).
Qed.


(** A listing changes no target and runs nothing. *)
Lemma execute_all_listing l π :
  print_targets_only config = true ->
  let π' := (execute_all P derived_targets config l π).2 in
  attributes π' = attributes π
  /\ count_events is_processed (log (shared π'))
     = count_events is_processed (log (shared π)).
Proof.
  intros Hdry. unfold execute_all. rewrite Hdry.
  apply (for_each_keeps (fun π π' =>
    attributes π' = attributes π
    /\ count_events is_processed (log (shared π'))
       = count_events is_processed (log (shared π)))).
  - done.
  - intros π1 π2 π3 (H1 & H2) (H3 & H4). split; congruence.
  - intros x π0. unfold statusUpdate. simpl. split; [done|].
    rewrite count_events_app. simpl. unfold count_events. simpl. lia.
Qed.

Lemma grows_of_check_processed w w' :
  grows of_check w w' ->
  count_events is_processed (log w') = count_events is_processed (log w).
Proof.
  intros (evs & -> & Hall). rewrite count_events_app.
  assert (H : count_events is_processed evs = 0); [|lia].
  unfold count_events. induction evs as [|ev evs IH]; [done|].
  simpl in Hall. apply andb_true_iff in Hall as [Hev Hall]. simpl.
  destruct ev; simpl in *; try done; by apply IH.
Qed.





(** A call through [call_method] leaves the attributes of every alias. *)
Lemma call_method_leaves_aliases meth target π t :
  cls t = ClsMultiArchTargetAlias ->
  attributes (call_method P derived_targets config meth target π).2 t = attributes π t.
Proof.
  intros Hcls. unfold call_method.
  destruct (receiver _ _ _ _) as [tgt|e] eqn:Hr; simpl; [|done].
  rewrite on_object_process. simpl. apply set_attributes_ne.
  intros ->. by apply receiver_not_alias in Hr.
Qed.
End Run.


(** X19: [sys.exit] comes before anything is done.  When [run] ends in
    [sys.exit], no attribute of a target has changed, the class attribute
    [instantiating_targets_should_warn] is as before, and nothing has been
    created or recorded; the reason is a registered target with a
    dependency whose name is not registered, or a requested name that is
    not registered. *)
Theorem run_exits_before_anything (P : ProjectApi) (self : TargetManager)
    (derived_targets : Target -> list Target) (config : CheriConfig)
    (π π' : Process) (r : exit_reason) :
  run P self derived_targets config π = (SystemExit r, π') ->
  π' = π
  /\ match r with
     | InvalidDependency => ~ dependencies_registered P self config
     | TargetDoesNotExist n => n ∈ targets config /\ _allTargets self !! n = None
     end.
Proof.
  unfold run, mbind, R_bind.
  destruct (get_all_chosen_targets P self derived_targets config π)
    as [[plan|r0|e] π0] eqn:Hplan; simpl.
  - pose proof (for_each_no_exit
      (call_method P derived_targets config (fun tgt => checkSystemDeps P tgt config))
      plan r (fun x π => call_method_no_exit P derived_targets config _ x π r) π0) as H1.
    unfold check_all.
    destruct (for_each plan _ π0) as [[[]|r1|e1] π1] eqn:Hc; simpl in *;
      [|intros [= -> _]; done|done].
    intros Hrun. exfalso.
    assert (H2 : (execute_all P derived_targets config plan π1).1 <> SystemExit r).
    { unfold execute_all. apply for_each_no_exit. intros x π2.
      destruct (print_targets_only config); [done|]. apply call_method_no_exit. }
    by rewrite Hrun in H2.
  - intros [= -> <-]. revert Hplan. unfold get_all_chosen_targets.
    destruct (decide _) as [Hd|Hd]; [|by intros [= <- <-]].
    destruct (explicitlyChosenTargets _ _ _ _ _) as [?|r1|?] eqn:He; try done.
    intros [= <- <-]. split; [done|].
    by destruct (explicitlyChosenTargets_exit P derived_targets config self _ _ He)
      as (n & -> & Hn & Hl).
  - done.
Qed.

(** X20: with [print_targets_only] the run builds nothing: [process] is
    called on no project and no target is marked as executed, however the
    run ends.  (The project instances are still created and their system
    dependencies checked.) *)
Theorem listing_builds_nothing (P : ProjectApi) (self : TargetManager)
    (derived_targets : Target -> list Target) (config : CheriConfig) (π : Process) :
  print_targets_only config = true ->
  count_events is_processed (log (shared (run P self derived_targets config π).2))
  = count_events is_processed (log (shared π))
  /\ forall t, _completed (attributes (run P self derived_targets config π).2 t)
               = _completed (attributes π t).
Proof.
  intros Hdry. unfold run, mbind, R_bind.
  destruct (get_all_chosen_targets_step P derived_targets config self π)
    as (Hattr & Hlog & _ & _).
  destruct (get_all_chosen_targets P self derived_targets config π)
    as [[plan|r|e] π0]; simpl in *;
    try (rewrite Hlog, Hattr; done).
  pose proof (check_all_grows P derived_targets config plan π0) as Hg.
  apply grows_of_check_processed in Hg.
  destruct (check_all_keeps P derived_targets config plan π0) as (_ & Hc & _).
  destruct (check_all P derived_targets config plan π0) as [[[]|r|e] π1]; simpl in *;
    try (rewrite Hg, Hlog; split; [done|]; intros t; by rewrite Hc, Hattr).
  destruct (execute_all_listing P derived_targets config plan π1 Hdry) as (Ha & Hl).
  rewrite Hl, Ha, Hg, Hlog. split; [done|]. intros t. by rewrite Hc, Hattr.
Qed.


(** X22: a failed check builds nothing.  When the first loop of [run] ends
    with an exception (a target cannot get its project instance, or
    [checkSystemDependencies] raises), [run] ends with this exception
    before the second loop: [process] has been called on no project and no
    target has been marked as executed. *)
Theorem failed_check_builds_nothing (P : ProjectApi) (self : TargetManager)
    (derived_targets : Target -> list Target) (config : CheriConfig)
    (π π0 π1 : Process) (plan : list Target) (e : exn) :
  get_all_chosen_targets P self derived_targets config π = (Finished plan, π0) ->
  check_all P derived_targets config plan π0 = (Uncaught e, π1) ->
  run P self derived_targets config π = (Uncaught e, π1)
  /\ count_events is_processed (log (shared π1))
     = count_events is_processed (log (shared π))
  /\ forall t, _completed (attributes π1 t) = _completed (attributes π t).
Proof.
  intros Hplan Hcheck.
  destruct (get_all_chosen_targets_step P derived_targets config self π)
    as (Hattr & Hlog & _ & _). rewrite Hplan in Hattr, Hlog. simpl in *.
  pose proof (check_all_grows P derived_targets config plan π0) as Hg.
  apply grows_of_check_processed in Hg.
  destruct (check_all_keeps P derived_targets config plan π0) as (_ & Hc & _).
  rewrite Hcheck in Hg, Hc. simpl in *. split_and!.
  - unfold run, mbind, R_bind. by rewrite Hplan, Hcheck.
  - by rewrite Hg, Hlog.
  - intros t. by rewrite Hc, Hattr.
Qed.

(** X23: an alias never gets attributes of its own.  [run] calls the
    methods of a [MultiArchTargetAlias] on the variant that
    [get_real_target] returns, which is no alias: however the run ends, the
    attributes of every alias object are as they were before, so an alias
    never has a project instance and is never marked as executed. *)
Theorem run_leaves_aliases (P : ProjectApi) (self : TargetManager)
    (derived_targets : Target -> list Target) (config : CheriConfig) (π : Process)
    (t : Target) :
  cls t = ClsMultiArchTargetAlias ->
  attributes (run P self derived_targets config π).2 t = attributes π t.
Proof.
  intros Hcls. unfold run, mbind, R_bind.
  destruct (get_all_chosen_targets_step P derived_targets config self π)
    as (Hattr & _).
  destruct (get_all_chosen_targets P self derived_targets config π)
    as [[plan|r|e] π0]; simpl in *; try by rewrite Hattr.
  assert (Hc : attributes (check_all P derived_targets config plan π0).2 t
               = attributes π0 t).
  { unfold check_all.
    apply (for_each_keeps (fun π π' => attributes π' t = attributes π t)).
    - done.
    - intros π1 π2 π3 H1 H2. by rewrite H2.
    - intros x π1. by apply call_method_leaves_aliases. }
  destruct (check_all P derived_targets config plan π0) as [[[]|r|e] π1]; simpl in *;
    try by rewrite Hc, Hattr.
  assert (He : attributes (execute_all P derived_targets config plan π1).2 t
               = attributes π1 t).
  { unfold execute_all.
    apply (for_each_keeps (fun π π' => attributes π' t = attributes π t)).
    - done.
    - intros π2 π3 π4 H1 H2. by rewrite H2.
    - intros x π2. destruct (print_targets_only config); [done|].
      by apply call_method_leaves_aliases. }
  by rewrite He, Hc, Hattr.
Qed.

(** ** Instances of the properties with assumptions *)

Lemma checkSystemDeps_prepares_execute_witness :
  execute no_dependencies (simple_target "llvm") no_flags fresh
  = (Raised (AssertionError "Should have been initialized in checkSystemDeps()"), fresh)
  /\ exists σ2,
       execute no_dependencies (simple_target "llvm") no_flags checked_llvm
       = (Returned (), σ2)
       /\ _completed σ2.1 = true.
Proof.
  destruct (checkSystemDeps_prepares_execute no_dependencies (simple_target "llvm")
              no_flags fresh checked_llvm) as [H1 (p & Hp & H2)];
    [reflexivity|reflexivity|].
  split; [apply H1; reflexivity|exact H2].
Defined.

Lemma no_instance_before_run_witness :
  get_or_create_project (simple_target "llvm") None no_flags before_run
  = (Raised (premature (simple_target "llvm")), before_run)
  /\ checkSystemDeps no_dependencies (simple_target "llvm") no_flags before_run
     = (Raised (premature (simple_target "llvm")), before_run).
Proof.
  destruct (no_instance_before_run no_dependencies (simple_target "llvm") None
              no_flags before_run) as (H1 & H2 & _);
    [reflexivity|reflexivity|reflexivity|].
  split; [exact H1|apply H2; reflexivity].
Defined.


Lemma run_tests_once_witness :
  run_tests no_dependencies (simple_target "llvm") no_flags fresh
  = (Returned (), tested_llvm)
  /\ _tests_have_run tested_llvm.1 = true
  /\ _completed tested_llvm.1 = false
  /\ count_events is_tested (log tested_llvm.2) = 1.
Proof.
  destruct (run_tests_once no_dependencies (simple_target "llvm") no_flags fresh
              tested_llvm) as (H1 & H2 & _ & H3 & _);
    [reflexivity|reflexivity|].
  split_and!; [reflexivity|exact H1|exact H2|exact H3].
Defined.

Lemma reset_forgets_project_witness :
  instance_id second_instance = 1
  /\ second_instance ≠ mkProject 0 (simple_class "llvm") no_flags.
Proof.
  destruct (reset_forgets_project (simple_target "llvm") None no_flags
              executed.1 executed.2 (mkProject 0 (simple_class "llvm") no_flags)
              second_instance
              (get_or_create_project (simple_target "llvm") None no_flags
                 (reset executed).2).2) as (_ & H1 & H2 & _);
    [reflexivity|simpl; lia|reflexivity|].
  split; [exact H1|exact H2].
Defined.

Lemma lt_asymmetric_witness :
  simple_target "A" ∈ _cached_dependencies cycle (projectClass (simple_target "B"))
  /\ simple_target "B" ∈ _cached_dependencies cycle (projectClass (simple_target "A")).
Proof.
  apply (lt_asymmetric cycle (simple_target "A") (simple_target "B")); reflexivity.
Defined.

Lemma plan_of_ascending_list_witness :
  sort_in_dependency_order one_edge
    [simple_target "a"; simple_target "x"; simple_target "b"]
  = [simple_target "a"; simple_target "x"; simple_target "b"].
Proof.
  destruct (plan_of_ascending_list one_edge
              [simple_target "a"; simple_target "x"; simple_target "b"])
    as [_ H]; [reflexivity|].
  apply H. repeat constructor; set_solver.
Defined.

Lemma must_build_dependencies_planned_witness :
  simple_target "cmake" ∈ get_all_targets umbrella [sdk_umbrella] no_flags.
Proof.
  apply (must_build_dependencies_planned umbrella [sdk_umbrella] no_flags
           sdk_umbrella (simple_target "cmake")).
  - left.
  - reflexivity.
  - right. left.
  - reflexivity.
Defined.

Lemma topologicalSort_succeeds_witness :
  (topologicalSort no_dependencies empty_registry
     [simple_target "b"; simple_target "a"]).2 = StopIteration.
Proof.
  destruct (topologicalSort_succeeds no_dependencies empty_registry
              [simple_target "b"; simple_target "a"]) as [H _].
  - intros dep [(t & _ & Hin) _]. simpl in Hin. by apply elem_of_nil in Hin.
  - intros t t' Ht Ht' Hn.
    apply list_elem_of_In in Ht. apply list_elem_of_In in Ht'. simpl in Ht, Ht'.
    destruct Ht as [<-|[<-|[]]], Ht' as [<-|[<-|[]]];
      first [reflexivity | discriminate Hn].
  - apply H. intros t _. reflexivity.
Defined.

Lemma run_exits_before_anything_witness :
  run no_dependencies libcxx_registry libcxx_variants build_unknown new_process
  = (SystemExit (TargetDoesNotExist "libunwind"), new_process)
  /\ _allTargets libcxx_registry !! "libunwind" = None.
Proof.
  destruct (run_exits_before_anything no_dependencies libcxx_registry libcxx_variants
              build_unknown new_process new_process (TargetDoesNotExist "libunwind"))
    as (_ & _ & H); [vm_compute; reflexivity|].
  split; [vm_compute; reflexivity|exact H].
Defined.

Lemma listing_builds_nothing_witness :
  count_events is_processed
    (log (shared (run no_dependencies libcxx_registry libcxx_variants list_libcxx
                    new_process).2)) = 0
  /\ _completed (attributes (run no_dependencies libcxx_registry libcxx_variants
                               list_libcxx new_process).2 libcxx_native) = false.
Proof.
  destruct (listing_builds_nothing no_dependencies libcxx_registry libcxx_variants
              list_libcxx new_process) as [H1 H2]; [reflexivity|].
  split; [exact H1|apply H2].
Defined.


Lemma failed_check_builds_nothing_witness :
  run missing_tool libcxx_registry libcxx_variants build_libcxx new_process
  = (Uncaught (ProjectError "missing tool"),
     (check_all missing_tool libcxx_variants build_libcxx [libcxx_native] running).2)
  /\ _completed
       (attributes
          (check_all missing_tool libcxx_variants build_libcxx [libcxx_native] running).2
          libcxx_native) = false.
Proof.
  destruct (failed_check_builds_nothing missing_tool libcxx_registry libcxx_variants
              build_libcxx new_process running
              (check_all missing_tool libcxx_variants build_libcxx [libcxx_native]
                 running).2
              [libcxx_native] (ProjectError "missing tool")) as (H1 & _ & H2).
  - vm_compute. reflexivity.
  - reflexivity.
  - split; [exact H1|apply H2].
Defined.

Lemma run_leaves_aliases_witness :
  attributes (run no_dependencies libcxx_registry libcxx_variants build_libcxx
                new_process).2 libcxx = init_state.
Proof.
  apply (run_leaves_aliases no_dependencies libcxx_registry libcxx_variants
           build_libcxx new_process libcxx).
  reflexivity.
Defined.
